(** * Symbol typing trainer: the matching state machine, the numeric-target
      generator and the statistics view, embedded from the TypeScript sources
      ([domain/random.ts], [domain/digits.ts], [domain/keyboard.ts],
      [domain/symbols.ts], [hooks/useTrainer.ts],
      [components/DigitsSettingsForm.tsx]). *)

From Stdlib Require Import ZArith QArith Qround List String Ascii Bool Lia.
From Stdlib Require Import Permutation Sorted DecimalString Lqa.
Import ListNotations.

Local Open Scope string_scope.
Local Open Scope list_scope.
Local Open Scope Z_scope.

(** ** JavaScript values used by the trainer *)

(** A JS [number] as far as the trainer looks at one: a finite value (kept as
    an exact rational), [NaN], or one of the two infinities. *)
Inductive number : Type :=
| Fin (q : Q)
| NaN
| Infinity (negative : bool).

Definition of_Z (z : Z) : number := Fin (inject_Z z).

Definition Number_isFinite (n : number) : bool :=
  match n with Fin _ => true | _ => false end.

(** [Math.trunc] on a finite value: rounding towards zero. *)
Definition Math_trunc (q : Q) : Z := Z.quot (Qnum q) (Zpos (Qden q)).

Definition Qltb (a b : Q) : bool := negb (Qle_bool b a).

(** [Math.min] / [Math.max] on two numbers ([NaN] is contagious). *)
Definition Math_min (a b : number) : number :=
  match a, b with
  | NaN, _ | _, NaN => NaN
  | Infinity true, _ | _, Infinity true => Infinity true
  | Infinity false, x | x, Infinity false => x
  | Fin p, Fin q => if Qle_bool p q then a else b
  end.

Definition Math_max (a b : number) : number :=
  match a, b with
  | NaN, _ | _, NaN => NaN
  | Infinity false, _ | _, Infinity false => Infinity false
  | Infinity true, x | x, Infinity true => x
  | Fin p, Fin q => if Qle_bool q p then a else b
  end.

(** A JS string is read as a sequence of code units; one [ascii] stands for
    one code unit.  The empty string is the only falsy string. *)
Definition falsy (s : string) : bool := String.eqb s "".

(** [s[i] ?? ''] *)
Definition char_at (s : string) (i : nat) : string :=
  match String.get i s with
  | Some c => String c ""
  | None => ""
  end.

(** [s.slice(0, -1)] *)
Definition slice_0_m1 (s : string) : string :=
  substring 0 (String.length s - 1) s.

(** [String(d)] for an integer [d]. *)
Definition String_of_int (d : Z) : string :=
  NilZero.string_of_int (Z.to_int d).

(** ** The outside world: entropy behind [Math.random] and the clock behind
       [performance.now] *)

Record World : Type := mkWorld {
  entropy : nat -> Z;   (* raw entropy, one value per call of Math.random *)
  drawn : nat;          (* how many calls were made *)
  clock : nat -> Q;     (* successive clock readings, in ms *)
  reads : nat           (* how many readings were taken *)
}.

Definition M (A : Type) : Type := World -> A * World.

Definition ret {A} (a : A) : M A := fun w => (a, w).

Definition bind {A B} (c : M A) (k : A -> M B) : M B :=
  fun w => let (a, w') := c w in k a w'.

Notation "x <- c ;; k" := (bind c (fun x => k))
  (at level 61, c at next level, right associativity).

Definition two53 : positive := 9007199254740992.

(** [Math.random()]: a double in [0, 1), a multiple of 2^-53; the entropy is
    reduced modulo 2^53 to give its numerator. *)
Definition Math_random : M Q :=
  fun w =>
    (Qmake (entropy w (drawn w) mod Zpos two53) two53,
     mkWorld (entropy w) (S (drawn w)) (clock w) (reads w)).

(** ** domain/time.ts *)

Definition nowMs : M Q :=
  fun w =>
    (clock w (reads w),
     mkWorld (entropy w) (drawn w) (clock w) (S (reads w))).

(** ** domain/random.ts *)

Definition Math_floor (q : Q) : Z := Qfloor q.

(** [list[Math.floor(Math.random() * list.length)]].  Indexing past the end
    gives the falsy [undefined] in JS; the falsy string stands for it. *)
Definition pickRandom (list : list string) : M string :=
  r <- Math_random ;;
  ret (nth (Z.to_nat (Math_floor (r * inject_Z (Z.of_nat (List.length list)))))
           list "").

(** Every call passes the literals 1 and 50 as bounds, so the bounds and the
    result are whole numbers. *)
Definition clampInt (n : number) (min max : Z) : Z :=
  match n with
  | Fin q => Z.min max (Z.max min (Math_trunc q))
  | _ => min
  end.

Definition randomInt (min max : Z) : M Z :=
  let a := Z.min min max in
  let b := Z.max min max in
  r <- Math_random ;;
  ret (a + Math_floor (r * inject_Z (b - a + 1))).

(** ** domain/digits.ts *)

Record DigitsSettings : Type := mkDigitsSettings {
  minIntDigits : number;
  maxIntDigits : number;
  enableSign : bool;
  enableDecimal : bool;
  minFracDigits : number;
  maxFracDigits : number
}.

(** The body of the [for] loop of [buildDigitsString], run for the [todo]
    remaining indices starting at index [i]; [chars] is the array built so
    far. *)
Fixpoint buildDigitsLoop (todo : nat) (i : Z) (firstNonZero : bool)
    (chars : list string) : M (list string) :=
  match todo with
  | O => ret chars
  | S todo' =>
      digit <- (if (i =? 0) && firstNonZero
                then randomInt 1 9 else randomInt 0 9) ;;
      buildDigitsLoop todo' (i + 1) firstNonZero
                      (chars ++ [String_of_int digit])
  end.

(** [len] is always a whole number here (a result of [randomInt] on whole
    bounds), so [Math.trunc(len)] is [len]. *)
Definition buildDigitsString (len : Z) (firstNonZero : bool) : M string :=
  let n := Z.max 1 len in
  chars <- buildDigitsLoop (Z.to_nat n) 0 firstNonZero [] ;;
  ret (String.concat "" chars).

(** The double nearest to 0.3, exactly. *)
Definition double_0_3 : Q := 5404319552844595 # 18014398509481984.
Definition double_0_5 : Q := 1 # 2.

Definition generateDigitsTarget (settings : DigitsSettings) : M string :=
  let minIntDigits := clampInt (minIntDigits settings) 1 50 in
  let maxIntDigits := clampInt (maxIntDigits settings) 1 50 in
  let minFracDigits := clampInt (minFracDigits settings) 1 50 in
  let maxFracDigits := clampInt (maxFracDigits settings) 1 50 in
  intLen <- randomInt minIntDigits maxIntDigits ;;
  let decimalRatio := if enableDecimal settings then double_0_3 else 0%Q in
  let signRatio := if enableSign settings then double_0_3 else 0%Q in
  r1 <- Math_random ;;
  let withDecimal := Qltb r1 decimalRatio in
  r2 <- Math_random ;;
  let withSign := Qltb r2 signRatio in
  sign <- (if withSign
           then r3 <- Math_random ;;
                ret (if Qltb r3 double_0_5 then "+" else "-")
           else ret "") ;;
  if negb withDecimal then
    digits <- buildDigitsString intLen true ;;
    ret (sign ++ digits)%string
  else
    intPart <- buildDigitsString intLen false ;;
    fracLen <- randomInt minFracDigits maxFracDigits ;;
    fracPart <- buildDigitsString fracLen false ;;
    ret (sign ++ intPart ++ "." ++ fracPart)%string.

(** ** JS objects used as maps

    [Record<string, V>]: the own properties in enumeration order, which is
    what [Object.entries] and the spread [{ ...prev }] walk: array-index keys
    first, in ascending numeric order, then every other key in the order of
    creation. *)

Definition Obj (V : Type) : Type := list (string * V).

Definition is_digit (c : ascii) : bool :=
  ((48 <=? nat_of_ascii c) && (nat_of_ascii c <=? 57))%nat.

Fixpoint digits_value (s : string) (acc : N) : option N :=
  match s with
  | EmptyString => Some acc
  | String c rest =>
      if is_digit c
      then digits_value rest (10 * acc + N.of_nat (nat_of_ascii c - 48))%N
      else None
  end.

(** A property key is an array index when it is the canonical decimal
    spelling of an integer below 2^32 - 1. *)
Definition array_index (k : string) : option N :=
  match k with
  | EmptyString => None
  | String c rest =>
      if (Ascii.eqb c "0" && negb (falsy rest)) then None
      else match digits_value k 0 with
           | Some v => if (v <? 4294967295)%N then Some v else None
           | None => None
           end
  end.

Fixpoint obj_get {V} (k : string) (o : Obj V) : option V :=
  match o with
  | [] => None
  | (k', v) :: rest => if String.eqb k k' then Some v else obj_get k rest
  end.

Fixpoint obj_replace {V} (k : string) (v : V) (o : Obj V) : Obj V :=
  match o with
  | [] => []
  | (k', v') :: rest =>
      if String.eqb k k' then (k', v) :: rest
      else (k', v') :: obj_replace k v rest
  end.

(** A new array-index key goes before the first key that is not an array
    index or is a larger one. *)
Fixpoint obj_insert_index {V} (n : N) (k : string) (v : V) (o : Obj V)
    : Obj V :=
  match o with
  | [] => [(k, v)]
  | (k', v') :: rest =>
      match array_index k' with
      | Some n' =>
          if (n' <? n)%N then (k', v') :: obj_insert_index n k v rest
          else (k, v) :: o
      | None => (k, v) :: o
      end
  end.

(** [{ ...o, [k]: v }] *)
Definition obj_set {V} (k : string) (v : V) (o : Obj V) : Obj V :=
  match obj_get k o with
  | Some _ => obj_replace k v o
  | None =>
      match array_index k with
      | Some n => obj_insert_index n k v o
      | None => o ++ [(k, v)]
      end
  end.

(** [Object.fromEntries(entries)] *)
Definition Object_fromEntries {V} (entries : list (string * V)) : Obj V :=
  fold_left (fun o kv => obj_set (fst kv) (snd kv) o) entries [].

(** ** domain/modes.ts, domain/symbols.ts, domain/keyboard.ts *)

Inductive Mode : Type := single | combo | digits.

Definition Mode_eqb (a b : Mode) : bool :=
  match a, b with
  | single, single | combo, combo | digits, digits => true
  | _, _ => false
  end.

Definition dquote : string := String (ascii_of_nat 34) EmptyString.

Definition SINGLE_SYMBOLS : list string :=
  [ "("; ")"; "["; "]"; "{"; "}"; "<"; ">";
    ","; "."; ":"; ";"; "!"; "?";
    "'"; dquote;
    "+"; "-"; "*"; "/"; "=";
    "_"; "@"; "#"; "$"; "%"; "^"; "&"; "|"; "\"; "~"; "`" ].

Definition COMBOS : list string :=
  [ "=>"; "->"; "<-"; "!="; "=="; "==="; "<="; ">=";
    "&&"; "||"; "??"; "?:";
    "::"; "->>"; "?."; "??=";
    ".."; "...";
    "//"; "/*"; "*/";
    "</"; "/>" ].

Definition initEnabledMap (list : list string) : Obj bool :=
  Object_fromEntries (map (fun item => (item, true)) list).

Definition normalizeKey (k : string) : string :=
  if String.eqb k "Enter" || String.eqb k "Tab" || String.eqb k "Escape"
  then k
  else if String.eqb k "Dead" then ""
  else k.

(** ** hooks/useTrainer.ts: the state held by the hook *)

Record Stat : Type := mkStat {
  attempts : Z;
  correct : Z;
  totalMs : Q
}.

Record RankedStat : Type := mkRankedStat {
  item : string;
  r_attempts : Z;
  r_correct : Z;
  r_totalMs : Q;
  acc : Q;
  avg : option Q
}.

(** One field per [useState] cell, plus [shownAt] for [shownAtRef.current]. *)
Record Trainer : Type := mkTrainer {
  mode : Mode;
  isRunning : bool;
  enabledSingle : Obj bool;
  enabledCombo : Obj bool;
  digitsSettings : DigitsSettings;
  target : string;
  typed : string;
  progress : string;
  totalAttempts : Z;
  totalCorrect : Z;
  totalMiss : Z;
  totalBackspace : Z;
  lastTimeMs : option Q;
  statsByItem : Obj Stat;
  shownAt : Q
}.

(** The state setters; each takes the updater [f] of [setX(prev => f prev)]
    (a plain [setX(v)] is the constant updater). *)
Definition setMode (f : Mode -> Mode) (s : Trainer) : Trainer :=
  mkTrainer (f (mode s)) (isRunning s) (enabledSingle s) (enabledCombo s)
    (digitsSettings s) (target s) (typed s) (progress s) (totalAttempts s)
    (totalCorrect s) (totalMiss s) (totalBackspace s) (lastTimeMs s)
    (statsByItem s) (shownAt s).

Definition setIsRunning (f : bool -> bool) (s : Trainer) : Trainer :=
  mkTrainer (mode s) (f (isRunning s)) (enabledSingle s) (enabledCombo s)
    (digitsSettings s) (target s) (typed s) (progress s) (totalAttempts s)
    (totalCorrect s) (totalMiss s) (totalBackspace s) (lastTimeMs s)
    (statsByItem s) (shownAt s).

Definition setEnabledSingle (f : Obj bool -> Obj bool) (s : Trainer)
    : Trainer :=
  mkTrainer (mode s) (isRunning s) (f (enabledSingle s)) (enabledCombo s)
    (digitsSettings s) (target s) (typed s) (progress s) (totalAttempts s)
    (totalCorrect s) (totalMiss s) (totalBackspace s) (lastTimeMs s)
    (statsByItem s) (shownAt s).

Definition setEnabledCombo (f : Obj bool -> Obj bool) (s : Trainer)
    : Trainer :=
  mkTrainer (mode s) (isRunning s) (enabledSingle s) (f (enabledCombo s))
    (digitsSettings s) (target s) (typed s) (progress s) (totalAttempts s)
    (totalCorrect s) (totalMiss s) (totalBackspace s) (lastTimeMs s)
    (statsByItem s) (shownAt s).

Definition setDigitsSettings (f : DigitsSettings -> DigitsSettings)
    (s : Trainer) : Trainer :=
  mkTrainer (mode s) (isRunning s) (enabledSingle s) (enabledCombo s)
    (f (digitsSettings s)) (target s) (typed s) (progress s) (totalAttempts s)
    (totalCorrect s) (totalMiss s) (totalBackspace s) (lastTimeMs s)
    (statsByItem s) (shownAt s).

Definition setTarget (f : string -> string) (s : Trainer) : Trainer :=
  mkTrainer (mode s) (isRunning s) (enabledSingle s) (enabledCombo s)
    (digitsSettings s) (f (target s)) (typed s) (progress s) (totalAttempts s)
    (totalCorrect s) (totalMiss s) (totalBackspace s) (lastTimeMs s)
    (statsByItem s) (shownAt s).

Definition setTyped (f : string -> string) (s : Trainer) : Trainer :=
  mkTrainer (mode s) (isRunning s) (enabledSingle s) (enabledCombo s)
    (digitsSettings s) (target s) (f (typed s)) (progress s) (totalAttempts s)
    (totalCorrect s) (totalMiss s) (totalBackspace s) (lastTimeMs s)
    (statsByItem s) (shownAt s).

Definition setProgress (f : string -> string) (s : Trainer) : Trainer :=
  mkTrainer (mode s) (isRunning s) (enabledSingle s) (enabledCombo s)
    (digitsSettings s) (target s) (typed s) (f (progress s)) (totalAttempts s)
    (totalCorrect s) (totalMiss s) (totalBackspace s) (lastTimeMs s)
    (statsByItem s) (shownAt s).

Definition setTotalAttempts (f : Z -> Z) (s : Trainer) : Trainer :=
  mkTrainer (mode s) (isRunning s) (enabledSingle s) (enabledCombo s)
    (digitsSettings s) (target s) (typed s) (progress s) (f (totalAttempts s))
    (totalCorrect s) (totalMiss s) (totalBackspace s) (lastTimeMs s)
    (statsByItem s) (shownAt s).

Definition setTotalCorrect (f : Z -> Z) (s : Trainer) : Trainer :=
  mkTrainer (mode s) (isRunning s) (enabledSingle s) (enabledCombo s)
    (digitsSettings s) (target s) (typed s) (progress s) (totalAttempts s)
    (f (totalCorrect s)) (totalMiss s) (totalBackspace s) (lastTimeMs s)
    (statsByItem s) (shownAt s).

Definition setTotalMiss (f : Z -> Z) (s : Trainer) : Trainer :=
  mkTrainer (mode s) (isRunning s) (enabledSingle s) (enabledCombo s)
    (digitsSettings s) (target s) (typed s) (progress s) (totalAttempts s)
    (totalCorrect s) (f (totalMiss s)) (totalBackspace s) (lastTimeMs s)
    (statsByItem s) (shownAt s).

Definition setTotalBackspace (f : Z -> Z) (s : Trainer) : Trainer :=
  mkTrainer (mode s) (isRunning s) (enabledSingle s) (enabledCombo s)
    (digitsSettings s) (target s) (typed s) (progress s) (totalAttempts s)
    (totalCorrect s) (totalMiss s) (f (totalBackspace s)) (lastTimeMs s)
    (statsByItem s) (shownAt s).

Definition setLastTimeMs (f : option Q -> option Q) (s : Trainer)
    : Trainer :=
  mkTrainer (mode s) (isRunning s) (enabledSingle s) (enabledCombo s)
    (digitsSettings s) (target s) (typed s) (progress s) (totalAttempts s)
    (totalCorrect s) (totalMiss s) (totalBackspace s) (f (lastTimeMs s))
    (statsByItem s) (shownAt s).

Definition setStatsByItem (f : Obj Stat -> Obj Stat) (s : Trainer)
    : Trainer :=
  mkTrainer (mode s) (isRunning s) (enabledSingle s) (enabledCombo s)
    (digitsSettings s) (target s) (typed s) (progress s) (totalAttempts s)
    (totalCorrect s) (totalMiss s) (totalBackspace s) (lastTimeMs s)
    (f (statsByItem s)) (shownAt s).

Definition setShownAt (t : Q) (s : Trainer) : Trainer :=
  mkTrainer (mode s) (isRunning s) (enabledSingle s) (enabledCombo s)
    (digitsSettings s) (target s) (typed s) (progress s) (totalAttempts s)
    (totalCorrect s) (totalMiss s) (totalBackspace s) (lastTimeMs s)
    (statsByItem s) t.

Definition const {A} (a : A) : A -> A := fun _ => a.

(** ** hooks/useTrainer.ts: derived values *)

Definition enabled_in (enabledMap : Obj bool) (item : string) : bool :=
  match obj_get item enabledMap with
  | Some false => false
  | _ => true
  end.

Definition basePool (s : Trainer) : list string :=
  if Mode_eqb (mode s) digits then []
  else if Mode_eqb (mode s) single then SINGLE_SYMBOLS else COMBOS.

Definition enabledMap (s : Trainer) : Obj bool :=
  if Mode_eqb (mode s) single then enabledSingle s else enabledCombo s.

Definition pool (s : Trainer) : list string :=
  filter (enabled_in (enabledMap s)) (basePool s).

Definition accuracy (s : Trainer) : Q :=
  if totalAttempts s =? 0 then 0%Q
  else (inject_Z (totalCorrect s) / inject_Z (totalAttempts s) * 100)%Q.

Definition rank_entry (entry : string * Stat) : RankedStat :=
  let (item, s) := entry in
  let acc := if attempts s =? 0 then 0%Q
             else (inject_Z (correct s) / inject_Z (attempts s) * 100)%Q in
  let avg := if correct s =? 0 then None
             else Some (totalMs s / inject_Z (correct s))%Q in
  mkRankedStat item (attempts s) (correct s) (totalMs s) acc avg.

(** The comparator handed to [sort]: rank by (lowest accuracy, then most
    attempts). *)
Definition rank_compare (a b : RankedStat) : Q :=
  if negb (Qeq_bool (acc a) (acc b)) then (acc a - acc b)%Q
  else inject_Z (r_attempts b - r_attempts a).

(** [Array.prototype.sort] is stable, and for a consistent comparator its
    result is the one stable rearrangement into ascending order; insertion
    from the right computes it. *)
Fixpoint sort_insert {A} (compare : A -> A -> Q) (x : A) (l : list A)
    : list A :=
  match l with
  | [] => [x]
  | y :: l' =>
      if Qle_bool (compare x y) 0 then x :: l
      else y :: sort_insert compare x l'
  end.

Definition Array_sort {A} (compare : A -> A -> Q) (l : list A) : list A :=
  fold_right (sort_insert compare) [] l.

Definition ranked_of (stats : Obj Stat) : list RankedStat :=
  firstn 10 (Array_sort rank_compare (map rank_entry stats)).

Definition ranked (s : Trainer) : list RankedStat :=
  ranked_of (statsByItem s).

(** ** hooks/useTrainer.ts: callbacks

    A callback closes over the values of the render it was created in; its
    state updates are queued and applied in order.  Each callback below takes
    the rendered state [c] it reads from and the pending state [p] its
    updates apply to. *)

Record Overrides : Type := mkOverrides {
  o_enabledSingle : option (Obj bool);
  o_enabledCombo : option (Obj bool);
  o_digitsSettings : option DigitsSettings
}.

Definition no_overrides : Overrides := mkOverrides None None None.

Definition nullish {A} (o : option A) (d : A) : A :=
  match o with Some a => a | None => d end.

Definition resetQuestion (c : Trainer) (nextMode : Mode)
    (overrides : Overrides) (p : Trainer) : M Trainer :=
  let effectiveDigitsSettings :=
    nullish (o_digitsSettings overrides) (digitsSettings c) in
  let effectiveEnabledSingle :=
    nullish (o_enabledSingle overrides) (enabledSingle c) in
  let effectiveEnabledCombo :=
    nullish (o_enabledCombo overrides) (enabledCombo c) in
  if Mode_eqb nextMode digits then
    t <- generateDigitsTarget effectiveDigitsSettings ;;
    let p := setTarget (const t) p in
    let p := setTyped (const "") p in
    let p := setProgress (const "") p in
    now <- nowMs ;;
    ret (setShownAt now p)
  else
    let list := if Mode_eqb nextMode single then SINGLE_SYMBOLS else COMBOS in
    let enabled := if Mode_eqb nextMode single
                   then effectiveEnabledSingle else effectiveEnabledCombo in
    let nextPool := filter (enabled_in enabled) list in
    t <- (if (List.length nextPool =? 0)%nat
          then ret "" else pickRandom nextPool) ;;
    let p := setTarget (const t) p in
    let p := setTyped (const "") p in
    let p := setProgress (const "") p in
    now <- nowMs ;;
    ret (setShownAt now p).

Definition nextQuestion (c : Trainer) (p : Trainer) : M Trainer :=
  if Mode_eqb (mode c) digits then
    resetQuestion c digits no_overrides p
  else if (List.length (pool c) =? 0)%nat then ret p
  else
    next <- pickRandom (pool c) ;;
    let p := setTarget (const next) p in
    let p := setTyped (const "") p in
    let p := setProgress (const "") p in
    now <- nowMs ;;
    ret (setShownAt now p).

Definition bump (item : string) (isCorrect : bool) (elapsedMs : option Q)
    (prev : Obj Stat) : Obj Stat :=
  let current := nullish (obj_get item prev) (mkStat 0 0 0) in
  let next :=
    mkStat (attempts current + 1)
           (correct current + (if isCorrect then 1 else 0))
           (totalMs current +
            (match isCorrect, elapsedMs with
             | true, Some ms => ms
             | _, _ => 0
             end))%Q in
  obj_set item next prev.

Definition bumpStat (item : string) (isCorrect : bool)
    (elapsedMs : option Q) (p : Trainer) : Trainer :=
  setStatsByItem (bump item isCorrect elapsedMs) p.

Definition setModeAndReset (c : Trainer) (nextMode : Mode) (p : Trainer)
    : M Trainer :=
  let p := setMode (const nextMode) p in
  resetQuestion c nextMode no_overrides p.

Definition toggleRunning (p : Trainer) : M Trainer :=
  ret (setIsRunning negb p).

Definition resetAll (c : Trainer) (p : Trainer) : M Trainer :=
  let p := setTotalAttempts (const 0) p in
  let p := setTotalCorrect (const 0) p in
  let p := setTotalMiss (const 0) p in
  let p := setTotalBackspace (const 0) p in
  let p := setLastTimeMs (const None) p in
  let p := setStatsByItem (const []) p in
  resetQuestion c (mode c) no_overrides p.

Definition normalize (next : DigitsSettings) : DigitsSettings :=
  let minInt := clampInt (minIntDigits next) 1 50 in
  let maxInt := clampInt (maxIntDigits next) 1 50 in
  let minFrac := clampInt (minFracDigits next) 1 50 in
  let maxFrac := clampInt (maxFracDigits next) 1 50 in
  let minInt := Z.min minInt maxInt in
  let maxInt := Z.max maxInt minInt in
  let minFrac := Z.min minFrac maxFrac in
  let maxFrac := Z.max maxFrac minFrac in
  mkDigitsSettings (of_Z minInt) (of_Z maxInt) (enableSign next)
                   (enableDecimal next) (of_Z minFrac) (of_Z maxFrac).

Definition setDigitsSettingsAndReset (c : Trainer) (next : DigitsSettings)
    (p : Trainer) : M Trainer :=
  let normalized := normalize next in
  let p := setDigitsSettings (const normalized) p in
  resetQuestion c digits (mkOverrides None None (Some normalized)) p.

Definition enableAllInCurrentMode (c : Trainer) (p : Trainer) : M Trainer :=
  if Mode_eqb (mode c) digits then ret p
  else if Mode_eqb (mode c) single then
    let next := initEnabledMap SINGLE_SYMBOLS in
    let p := setEnabledSingle (const next) p in
    resetQuestion c single (mkOverrides (Some next) None None) p
  else
    let next := initEnabledMap COMBOS in
    let p := setEnabledCombo (const next) p in
    resetQuestion c combo (mkOverrides None (Some next) None) p.

Definition disableAllInCurrentMode (c : Trainer) (p : Trainer) : M Trainer :=
  if Mode_eqb (mode c) digits then ret p
  else
    let next :=
      Object_fromEntries (map (fun item => (item, false)) (basePool c)) in
    if Mode_eqb (mode c) single then
      let p := setEnabledSingle (const next) p in
      resetQuestion c single (mkOverrides (Some next) None None) p
    else
      let p := setEnabledCombo (const next) p in
      resetQuestion c combo (mkOverrides None (Some next) None) p.

Definition setEnabledForItemInCurrentMode (c : Trainer) (item : string)
    (enabled : bool) (p : Trainer) : M Trainer :=
  if Mode_eqb (mode c) digits then ret p
  else if Mode_eqb (mode c) single then
    let next := obj_set item enabled (enabledSingle c) in
    let p := setEnabledSingle (const next) p in
    resetQuestion c single (mkOverrides (Some next) None None) p
  else
    let next := obj_set item enabled (enabledCombo c) in
    let p := setEnabledCombo (const next) p in
    resetQuestion c combo (mkOverrides None (Some next) None) p.

(** ** hooks/useTrainer.ts: the keydown listener *)

Record KeyboardEvent : Type := mkKeyboardEvent {
  key : string;
  metaKey : bool;
  ctrlKey : bool;
  altKey : bool
}.

Definition onKeyDown (c : Trainer) (e : KeyboardEvent) (p : Trainer)
    : M Trainer :=
  if negb (isRunning c) then ret p else
  if falsy (target c) then ret p else
  (* Let browser shortcuts work (Cmd+R etc.) *)
  if metaKey e || ctrlKey e || altKey e then ret p else
  if Mode_eqb (mode c) digits then
    if String.eqb (key e) "Backspace" then
      let p := setTotalBackspace (fun v => v + 1) p in
      let p := setTyped slice_0_m1 p in
      let p := setProgress slice_0_m1 p in
      ret p
    else
      let key := normalizeKey (key e) in
      if falsy key then ret p else
      if negb (String.length key =? 1)%nat then ret p else
      let expected := char_at (target c) (String.length (progress c)) in
      if String.eqb key expected then
        let nextProgress := (progress c ++ key)%string in
        let p := setTyped (const nextProgress) p in
        let p := setProgress (const nextProgress) p in
        if String.eqb nextProgress (target c) then
          now <- nowMs ;;
          let elapsed := (now - shownAt p)%Q in
          let p := setLastTimeMs (const (Some elapsed)) p in
          let p := setTotalAttempts (fun v => v + 1) p in
          let p := setTotalCorrect (fun v => v + 1) p in
          let p := bumpStat (target c) true (Some elapsed) p in
          nextQuestion c p
        else ret p
      else
        (* Mismatch: count as miss attempt. Progress does not reset. *)
        let p := setTotalAttempts (fun v => v + 1) p in
        let p := setTotalMiss (fun v => v + 1) p in
        let p := bumpStat (target c) false None p in
        ret p
  else
    let key := normalizeKey (key e) in
    if falsy key then ret p else
    (* Ignore non-printable keys. *)
    if negb (String.length key =? 1)%nat then ret p else
    (* Always show what the user actually typed. *)
    let p := setTyped (fun prev => prev ++ key)%string p in
    let nextProgress := (progress c ++ key)%string in
    (* If the prefix is still matching, keep going. *)
    if String.prefix nextProgress (target c) then
      let p := setProgress (const nextProgress) p in
      (* Completed. *)
      if String.eqb nextProgress (target c) then
        now <- nowMs ;;
        let elapsed := (now - shownAt p)%Q in
        let p := setLastTimeMs (const (Some elapsed)) p in
        let p := setTotalAttempts (fun v => v + 1) p in
        let p := setTotalCorrect (fun v => v + 1) p in
        let p := bumpStat (target c) true (Some elapsed) p in
        nextQuestion c p
      else ret p
    else
      (* Mismatch -> count as miss attempt, then reset matching buffer. *)
      let p := setTotalAttempts (fun v => v + 1) p in
      let p := setTotalMiss (fun v => v + 1) p in
      let p := bumpStat (target c) false None p in
      let p := setProgress (const "") p in
      ret p.

(** The first render: the [useState] initialisers and [useRef(nowMs())]. *)
Definition useTrainer_init : M Trainer :=
  t <- pickRandom SINGLE_SYMBOLS ;;
  now <- nowMs ;;
  ret (mkTrainer single true (initEnabledMap SINGLE_SYMBOLS)
         (initEnabledMap COMBOS)
         (mkDigitsSettings (of_Z 3) (of_Z 7) false false (of_Z 1) (of_Z 4))
         t "" "" 0 0 0 0 None [] now).

(** ** components/DigitsSettingsForm.tsx: the four numeric inputs.  [value]
       is [Number(e.target.value)]. *)

Definition onChange_minIntDigits (digitsSettings : DigitsSettings)
    (value : number) : DigitsSettings :=
  let v := clampInt value 1 50 in
  mkDigitsSettings (Math_min (of_Z v) (maxIntDigits digitsSettings))
    (maxIntDigits digitsSettings) (enableSign digitsSettings)
    (enableDecimal digitsSettings) (minFracDigits digitsSettings)
    (maxFracDigits digitsSettings).

Definition onChange_maxIntDigits (digitsSettings : DigitsSettings)
    (value : number) : DigitsSettings :=
  let v := clampInt value 1 50 in
  mkDigitsSettings (minIntDigits digitsSettings)
    (Math_max (of_Z v) (minIntDigits digitsSettings))
    (enableSign digitsSettings) (enableDecimal digitsSettings)
    (minFracDigits digitsSettings) (maxFracDigits digitsSettings).

Definition onChange_minFracDigits (digitsSettings : DigitsSettings)
    (value : number) : DigitsSettings :=
  let v := clampInt value 1 50 in
  mkDigitsSettings (minIntDigits digitsSettings)
    (maxIntDigits digitsSettings) (enableSign digitsSettings)
    (enableDecimal digitsSettings)
    (Math_min (of_Z v) (maxFracDigits digitsSettings))
    (maxFracDigits digitsSettings).

Definition onChange_maxFracDigits (digitsSettings : DigitsSettings)
    (value : number) : DigitsSettings :=
  let v := clampInt value 1 50 in
  mkDigitsSettings (minIntDigits digitsSettings)
    (maxIntDigits digitsSettings) (enableSign digitsSettings)
    (enableDecimal digitsSettings) (minFracDigits digitsSettings)
    (Math_max (of_Z v) (minFracDigits digitsSettings)).

(** ** App.tsx: what the page lets the user do *)

Inductive Action : Type :=
| KeyDown (e : KeyboardEvent)
| SelectMode (nextMode : Mode)
| ClickPause
| ClickReset
| ChangeDigitsSettings (next : DigitsSettings)
| ClickEnableAll
| ClickDisableAll
| ToggleItem (item : string) (enabled : bool).

(** The digits form is rendered in digits mode only, the symbols picker in
    the two other modes only, with one checkbox per item of [basePool]. *)
Definition offered (s : Trainer) (a : Action) : bool :=
  match a with
  | ChangeDigitsSettings _ => Mode_eqb (mode s) digits
  | ClickEnableAll | ClickDisableAll => negb (Mode_eqb (mode s) digits)
  | ToggleItem item _ =>
      negb (Mode_eqb (mode s) digits)
      && existsb (String.eqb item) (basePool s)
  | _ => true
  end.

(** One event handled to completion: the handler of the current render runs
    and its queued updates are applied. *)
Definition dispatch (a : Action) (s : Trainer) : M Trainer :=
  match a with
  | KeyDown e => onKeyDown s e s
  | SelectMode nextMode => setModeAndReset s nextMode s
  | ClickPause => toggleRunning s
  | ClickReset => resetAll s s
  | ChangeDigitsSettings next => setDigitsSettingsAndReset s next s
  | ClickEnableAll => enableAllInCurrentMode s s
  | ClickDisableAll => disableAllInCurrentMode s s
  | ToggleItem item enabled => setEnabledForItemInCurrentMode s item enabled s
  end.

Inductive reachable : Trainer -> Prop :=
| reachable_init (w : World) : reachable (fst (useTrainer_init w))
| reachable_step (s : Trainer) (a : Action) (w : World) :
    reachable s -> offered s a = true -> reachable (fst (dispatch a s w)).

(** ** Vocabulary of the statements *)

(** A printable single-character key: no Meta/Ctrl/Alt held, and a key
    identifier of exactly one character. *)
Definition printable (e : KeyboardEvent) : Prop :=
  metaKey e = false /\ ctrlKey e = false /\ altKey e = false /\
  String.length (key e) = 1%nat.

(** The statistic of an item, all zero while the item has no entry. *)
Definition stat_of (item : string) (stats : Obj Stat) : Stat :=
  nullish (obj_get item stats) (mkStat 0 0 0).

(** The state left by handling action [a] in state [s] and world [w]. *)
Definition after (a : Action) (s : Trainer) (w : World) : Trainer :=
  fst (dispatch a s w).

(** A session: the first render followed by the given actions, each handled
    to completion before the next. *)
Fixpoint run_from (actions : list Action) (s : Trainer) : M Trainer :=
  match actions with
  | [] => ret s
  | a :: rest => s' <- dispatch a s ;; run_from rest s'
  end.

Definition session (actions : list Action) : M Trainer :=
  s <- useTrainer_init ;; run_from actions s.

(** Whether the page offers each action of the list at the moment it is
    taken. *)
Fixpoint offered_from (actions : list Action) (s : Trainer) (w : World)
    : bool :=
  match actions with
  | [] => true
  | a :: rest =>
      offered s a &&
      (let (s', w') := dispatch a s w in offered_from rest s' w')
  end.

Definition session_offered (actions : list Action) (w : World) : bool :=
  let (s, w') := useTrainer_init w in offered_from actions s w'.

Definition press (k : string) : Action :=
  KeyDown (mkKeyboardEvent k false false false).

(** A world with the given entropy (0 once it runs out) and a clock that
    ticks every 100 ms. *)
Definition world_of (draws : list Z) : World :=
  mkWorld (fun n => nth n draws 0) 0 (fun n => inject_Z (100 * Z.of_nat n)) 0.

(** The invariants of the session state. *)
Definition progress_is_prefix (s : Trainer) : Prop :=
  String.prefix (progress s) (target s) = true.

Definition progress_is_proper (s : Trainer) : Prop :=
  progress s = "" \/ progress s <> target s.

Definition pool_serves_target (s : Trainer) : Prop :=
  mode s <> digits -> target s <> "" -> pool s <> [].

Definition typed_tracks_progress (s : Trainer) : Prop :=
  mode s = digits -> typed s = progress s.

(** A statistic the trainer can hold: at least one attempt, and no more
    successes than attempts. *)
Definition stat_ok (st : Stat) : Prop :=
  0 <= correct st <= attempts st /\ 1 <= attempts st.

Definition stats_ok (stats : Obj Stat) : Prop :=
  Forall (fun entry => stat_ok (snd entry)) stats /\ NoDup (map fst stats).

(** Settings as the trainer stores them: four whole numbers within [1, 50],
    each minimum at most its maximum. *)
Definition settings_wf (d : DigitsSettings) : Prop :=
  exists a b c e,
    minIntDigits d = of_Z a /\ maxIntDigits d = of_Z b /\
    minFracDigits d = of_Z c /\ maxFracDigits d = of_Z e /\
    1 <= a <= b /\ b <= 50 /\ 1 <= c <= e /\ e <= 50.

Record invariant (s : Trainer) : Prop := mkInvariant {
  inv_prefix : progress_is_prefix s;
  inv_proper : progress_is_proper s;
  inv_pool : pool_serves_target s;
  inv_typed : typed_tracks_progress s;
  inv_totals : totalAttempts s = totalCorrect s + totalMiss s;
  inv_stats : stats_ok (statsByItem s);
  inv_settings : settings_wf (digitsSettings s)
}.

(** The order of the ranked view in the words of the specification: lower
    accuracy first, and among equal accuracies more attempts first. *)
Definition ranks_before (a b : RankedStat) : Prop :=
  (acc a < acc b)%Q \/ ((acc a == acc b)%Q /\ r_attempts b <= r_attempts a).

(** ** Reading a generated literal back

    A literal is an optional sign character, a non-empty run of digits and,
    optionally, a point followed by a non-empty run of digits; nothing
    else. *)

Definition is_sign (c : ascii) : bool := Ascii.eqb c "+" || Ascii.eqb c "-".

Fixpoint all_digits (t : string) : bool :=
  match t with
  | EmptyString => true
  | String c rest => is_digit c && all_digits rest
  end.

Fixpoint take_digits (t : string) : string :=
  match t with
  | EmptyString => EmptyString
  | String c rest => if is_digit c then String c (take_digits rest) else ""
  end.

Fixpoint drop_digits (t : string) : string :=
  match t with
  | EmptyString => EmptyString
  | String c rest => if is_digit c then drop_digits rest else t
  end.

Record Literal : Type := mkLiteral {
  lit_sign : string;          (* the sign character, or the empty string *)
  lit_int : string;           (* the digits of the integer part *)
  lit_frac : option string    (* the digits after the point, if any *)
}.

Definition read_unsigned (sign unsigned : string) : option Literal :=
  let int := take_digits unsigned in
  match int, drop_digits unsigned with
  | EmptyString, _ => None
  | _, EmptyString => Some (mkLiteral sign int None)
  | _, String c frac =>
      if Ascii.eqb c "." && all_digits frac && negb (falsy frac)
      then Some (mkLiteral sign int (Some frac))
      else None
  end.

Definition read_literal (t : string) : option Literal :=
  match t with
  | EmptyString => None
  | String c rest =>
      if is_sign c then read_unsigned (String c "") rest
      else read_unsigned "" t
  end.

Definition leading_zero (digits : string) : bool :=
  match digits with
  | EmptyString => false
  | String c _ => Ascii.eqb c "0"
  end.

(** The property of a generated literal [t], given how a digit count is
    judged against the integer-digit and fractional-digit settings. *)
Definition literal_meets (int_range frac_range : nat -> bool)
    (settings : DigitsSettings) (t : string) : bool :=
  match read_literal t with
  | None => false
  | Some l =>
      int_range (String.length (lit_int l)) &&
      match lit_frac l with
      | Some frac =>
          enableDecimal settings && frac_range (String.length frac)
      | None => negb (leading_zero (lit_int l))
      end &&
      (falsy (lit_sign l) ||
       enableSign settings &&
       (String.eqb (lit_sign l) "+" || String.eqb (lit_sign l) "-"))
  end.

Definition number_leb (a b : number) : bool :=
  match a, b with
  | NaN, _ | _, NaN => false
  | Infinity true, _ | _, Infinity false => true
  | Infinity false, _ | _, Infinity true => false
  | Fin p, Fin q => Qle_bool p q
  end.

(** Within the configured range: [lo <= n <= hi] for the two settings as
    they are. *)
Definition configured_range (lo hi : number) (n : nat) : bool :=
  number_leb lo (of_Z (Z.of_nat n)) && number_leb (of_Z (Z.of_nat n)) hi.

(** Within the range the generator draws from: each setting clamped to
    [1, 50], the pair taken in ascending order. *)
Definition clamped_range (lo hi : number) (n : nat) : bool :=
  let a := clampInt lo 1 50 in
  let b := clampInt hi 1 50 in
  (Z.min a b <=? Z.of_nat n) && (Z.of_nat n <=? Z.max a b).

(** The one-character strings of a list of characters. *)
Definition chars_of (cs : list ascii) : list string :=
  map (fun c => String c "") cs.

(** Settings beyond the range of the form: 60 to 70 integer digits. *)
Definition oversized_settings : DigitsSettings :=
  mkDigitsSettings (of_Z 60) (of_Z 70) false false (of_Z 1) (of_Z 4).

(** ** Further vocabulary *)

(** The sum of a count over all entries of the statistics. *)
Definition sum_over (f : Stat -> Z) (stats : Obj Stat) : Z :=
  fold_right (fun entry total => f (snd entry) + total) 0 stats.

(** The actions of a list of key events, in order. *)
Definition keystrokes (events : list KeyboardEvent) : list Action :=
  map KeyDown events.

(** The part of the state a key event has no business with. *)
Definition configuration (s : Trainer)
    : Mode * bool * Obj bool * Obj bool * DigitsSettings :=
  (mode s, isRunning s, enabledSingle s, enabledCombo s, digitsSettings s).

(** The key events of typing the characters of [t] one after the other,
    with no modifier held. *)
Definition typing (t : string) : list KeyboardEvent :=
  map (fun c => mkKeyboardEvent (String c "") false false false)
      (list_ascii_of_string t).

(** In single/combo mode the target is an item of the pool, or there is no
    target because the pool is empty. *)
Definition target_in_pool (s : Trainer) : Prop :=
  mode s <> digits ->
  (target s = "" /\ pool s = []) \/ In (target s) (pool s).

(** In numeric mode the target is a literal that meets the stored
    settings. *)
Definition target_meets_settings (s : Trainer) : Prop :=
  mode s = digits ->
  literal_meets
    (configured_range (minIntDigits (digitsSettings s))
                      (maxIntDigits (digitsSettings s)))
    (configured_range (minFracDigits (digitsSettings s))
                      (maxFracDigits (digitsSettings s)))
    (digitsSettings s) (target s) = true.

(** The matched prefix is the tail of what has been typed. *)
Definition typed_ends_with_progress (s : Trainer) : Prop :=
  exists before, typed s = (before ++ progress s)%string.

(** Counters never go below zero, and a last time is on record exactly when
    some target has been completed. *)
Definition scores_consistent (s : Trainer) : Prop :=
  0 <= totalAttempts s /\ 0 <= totalCorrect s /\ 0 <= totalMiss s /\
  0 <= totalBackspace s /\
  (lastTimeMs s = None <-> totalCorrect s = 0).

(** A session of eleven misses on eleven different single symbols: a wrong
    key, then the mode selected again to draw the next target. *)
Definition eleven_misses : list Action :=
  List.concat (repeat [press "Z"; SelectMode single] 11).

Definition eleven_draws : World :=
  world_of (map (fun i => Z.of_nat i * 281474976710656) (seq 0 12)).

(** * Proofs *)

(** ** Strings *)

Lemma falsy_false (s : string) : s <> "" -> falsy s = false.
Proof. intro H. unfold falsy. now apply String.eqb_neq. Qed.

Lemma falsy_true (s : string) : falsy s = true -> s = "".
Proof. unfold falsy. apply String.eqb_eq. Qed.

Lemma length_one (k : string) :
  String.length k = 1%nat -> exists ch, k = String ch "".
Proof.
  destruct k as [|ch [|ch' k']]; simpl; try discriminate.
  intros _. now exists ch.
Qed.

Lemma normalizeKey_single (k : string) :
  String.length k = 1%nat -> normalizeKey k = k.
Proof.
  intro H. unfold normalizeKey.
  destruct (String.eqb k "Enter" || String.eqb k "Tab" || String.eqb k "Escape");
    [reflexivity|].
  destruct (String.eqb_spec k "Dead") as [->|]; [discriminate H|reflexivity].
Qed.

Lemma prefix_empty (t : string) : String.prefix "" t = true.
Proof. now destruct t. Qed.

Lemma prefix_refl (t : string) : String.prefix t t = true.
Proof.
  induction t as [|ch t IH]; simpl; [reflexivity|].
  destruct (ascii_dec ch ch); [assumption|congruence].
Qed.

Lemma prefix_length (p t : string) :
  String.prefix p t = true -> (String.length p <= String.length t)%nat.
Proof.
  revert t. induction p as [|ch p IH]; intros [|ch' t]; simpl; intro H;
    try lia; try discriminate.
  destruct (ascii_dec ch ch'); [|discriminate].
  apply IH in H. lia.
Qed.

(** Appending the character the target holds right after the matched prefix
    keeps the buffer a prefix. *)
Lemma prefix_extend (p t k : string) :
  String.prefix p t = true ->
  String.length k = 1%nat ->
  char_at t (String.length p) = k ->
  String.prefix (p ++ k) t = true.
Proof.
  intros Hp Hk. destruct (length_one k Hk) as [ch ->]. clear Hk.
  revert t Hp. induction p as [|a p IH]; intros [|b t]; simpl;
    intros Hp He; try discriminate.
  - unfold char_at in He; simpl in He. injection He as ->.
    destruct (ascii_dec ch ch); [apply prefix_empty|congruence].
  - destruct (ascii_dec a b); [|discriminate].
    apply IH; assumption.
Qed.

Lemma prefix_trans (p q t : string) :
  String.prefix p q = true -> String.prefix q t = true ->
  String.prefix p t = true.
Proof.
  revert q t. induction p as [|a p IH]; intros q t Hpq Hqt;
    [apply prefix_empty|].
  destruct q as [|b q]; [discriminate|].
  destruct t as [|c t]; [discriminate|].
  simpl in *. destruct (ascii_dec a b) as [->|]; [|discriminate].
  destruct (ascii_dec b c); [|discriminate]. eauto.
Qed.

Lemma prefix_substring (n : nat) (p : string) :
  String.prefix (substring 0 n p) p = true.
Proof.
  revert n. induction p as [|a p IH]; intros [|n]; simpl; try reflexivity.
  destruct (ascii_dec a a); [apply IH|congruence].
Qed.

Lemma substring_length (n : nat) (p : string) :
  String.length (substring 0 n p) = Nat.min n (String.length p).
Proof.
  revert n. induction p as [|a p IH]; intros [|n]; simpl; try reflexivity.
  now rewrite IH.
Qed.

Lemma substring_app (p q : string) :
  substring 0 (String.length p) (p ++ q) = p.
Proof.
  induction p as [|a p IH]; simpl; [now destruct q|]. now rewrite IH.
Qed.

Lemma append_length (p q : string) :
  String.length (p ++ q) = (String.length p + String.length q)%nat.
Proof. induction p as [|a p IH]; simpl; [reflexivity|]. now rewrite IH. Qed.

Lemma prefix_slice (p t : string) :
  String.prefix p t = true -> String.prefix (slice_0_m1 p) t = true.
Proof.
  intro H. apply prefix_trans with (q := p); [|exact H].
  apply prefix_substring.
Qed.

Lemma slice_length (p : string) :
  String.length (slice_0_m1 p) = (String.length p - 1)%nat.
Proof. unfold slice_0_m1. rewrite substring_length. lia. Qed.

Lemma slice_empty : slice_0_m1 "" = "".
Proof. reflexivity. Qed.

Lemma slice_snoc (p : string) (ch : ascii) :
  slice_0_m1 (p ++ String ch "") = p.
Proof.
  unfold slice_0_m1. rewrite append_length. simpl String.length.
  replace (String.length p + 1 - 1)%nat with (String.length p) by lia.
  apply substring_app.
Qed.

Lemma Mode_eqb_eq (a b : Mode) : Mode_eqb a b = true <-> a = b.
Proof. destruct a, b; simpl; split; congruence. Qed.

Lemma Mode_eqb_neq (a b : Mode) : a <> b -> Mode_eqb a b = false.
Proof. destruct a, b; simpl; congruence. Qed.

(** ** Objects as maps *)

Section ObjFacts.
Context {V : Type}.
Implicit Types (o : Obj V) (k : string) (v : V).

Lemma obj_get_replace_same k v o :
  obj_get k o <> None -> obj_get k (obj_replace k v o) = Some v.
Proof.
  induction o as [|[k' v'] o IH]; simpl; [congruence|].
  destruct (String.eqb k k') eqn:E; simpl; rewrite E; auto.
Qed.

Lemma obj_get_replace_other k k0 v o :
  k0 <> k -> obj_get k0 (obj_replace k v o) = obj_get k0 o.
Proof.
  intro Hne. induction o as [|[k' v'] o IH]; simpl; [reflexivity|].
  destruct (String.eqb_spec k k') as [<-|]; simpl.
  - apply String.eqb_neq in Hne. now rewrite Hne.
  - now rewrite IH.
Qed.

Lemma obj_get_insert_same n k v o :
  obj_get k o = None -> obj_get k (obj_insert_index n k v o) = Some v.
Proof.
  induction o as [|[k' v'] o IH]; simpl.
  - now rewrite String.eqb_refl.
  - destruct (String.eqb k k') eqn:E; [discriminate|]. intro Hn.
    destruct (array_index k') as [n'|]; simpl.
    + destruct (n' <? n)%N; simpl.
      * rewrite E. auto.
      * now rewrite String.eqb_refl.
    + now rewrite String.eqb_refl.
Qed.

Lemma obj_get_insert_other n k k0 v o :
  k0 <> k -> obj_get k0 (obj_insert_index n k v o) = obj_get k0 o.
Proof.
  intro Hne. apply String.eqb_neq in Hne.
  induction o as [|[k' v'] o IH]; simpl.
  - now rewrite Hne.
  - destruct (array_index k') as [n'|]; simpl.
    + destruct (n' <? n)%N; simpl.
      * now rewrite IH.
      * now rewrite Hne.
    + now rewrite Hne.
Qed.

Lemma obj_get_app k o o' :
  obj_get k (o ++ o') =
  match obj_get k o with Some v => Some v | None => obj_get k o' end.
Proof.
  induction o as [|[k' v'] o IH]; simpl; [reflexivity|].
  destruct (String.eqb k k'); auto.
Qed.

Lemma obj_get_set_same k v o : obj_get k (obj_set k v o) = Some v.
Proof.
  unfold obj_set. destruct (obj_get k o) eqn:E.
  - apply obj_get_replace_same. congruence.
  - destruct (array_index k).
    + now apply obj_get_insert_same.
    + rewrite obj_get_app, E. simpl. now rewrite String.eqb_refl.
Qed.

Lemma obj_get_set_other k k0 v o :
  k0 <> k -> obj_get k0 (obj_set k v o) = obj_get k0 o.
Proof.
  intro Hne. unfold obj_set. destruct (obj_get k o) eqn:E.
  - now apply obj_get_replace_other.
  - destruct (array_index k).
    + now apply obj_get_insert_other.
    + rewrite obj_get_app. simpl.
      apply String.eqb_neq in Hne. rewrite Hne.
      now destruct (obj_get k0 o).
Qed.
End ObjFacts.

(** What [bumpStat] leaves in the statistics. *)
Lemma bump_target (item : string) (isCorrect : bool) (elapsedMs : option Q)
    (prev : Obj Stat) :
  stat_of item (bump item isCorrect elapsedMs prev) =
  mkStat (attempts (stat_of item prev) + 1)
         (correct (stat_of item prev) + (if isCorrect then 1 else 0))
         (totalMs (stat_of item prev) +
          match isCorrect, elapsedMs with
          | true, Some ms => ms
          | _, _ => 0
          end)%Q.
Proof. unfold stat_of, bump. now rewrite obj_get_set_same. Qed.

Lemma bump_other (item other : string) (isCorrect : bool)
    (elapsedMs : option Q) (prev : Obj Stat) :
  other <> item ->
  obj_get other (bump item isCorrect elapsedMs prev) = obj_get other prev.
Proof. intro H. unfold bump. now apply obj_get_set_other. Qed.

(** Reads the fields of a state built by setters. *)
Ltac fields :=
  cbn [mode isRunning enabledSingle enabledCombo digitsSettings target typed
       progress totalAttempts totalCorrect totalMiss totalBackspace lastTimeMs
       statsByItem shownAt setMode setIsRunning setEnabledSingle
       setEnabledCombo setDigitsSettings setTarget setTyped setProgress
       setTotalAttempts setTotalCorrect setTotalMiss setTotalBackspace
       setLastTimeMs setStatsByItem setShownAt fst snd] in *;
  unfold const in *.

(** ** Single keystrokes *)

Lemma not_backspace (k : string) :
  String.length k = 1%nat -> String.eqb k "Backspace" = false.
Proof.
  intro H. destruct (String.eqb_spec k "Backspace") as [->|];
    [discriminate H|reflexivity].
Qed.

Lemma length_one_truthy (k : string) :
  String.length k = 1%nat -> falsy k = false.
Proof. intro H. apply falsy_false. intros ->. discriminate H. Qed.

(** Walks the guards of [onKeyDown] for an accepted printable key. *)
Ltac accept_key Hrun Htgt Hkey :=
  let Hmeta := fresh "Hmeta" in
  let Hctrl := fresh "Hctrl" in
  let Halt := fresh "Halt" in
  let Hlen := fresh "Hlen" in
  destruct Hkey as (Hmeta & Hctrl & Halt & Hlen);
  unfold after, dispatch, onKeyDown;
  rewrite Hrun, (falsy_false _ Htgt), Hmeta, Hctrl, Halt;
  rewrite ?(not_backspace _ Hlen), (normalizeKey_single _ Hlen),
          (length_one_truthy _ Hlen), Hlen;
  cbn [negb orb Nat.eqb].

(** What an accepted key does, branch by branch. *)
Lemma symbol_mismatch_step (s : Trainer) (e : KeyboardEvent) (w : World) :
  mode s <> digits -> isRunning s = true -> target s <> "" -> printable e ->
  String.prefix (progress s ++ key e) (target s) = false ->
  after (KeyDown e) s w =
  setProgress (const "")
    (bumpStat (target s) false None
       (setTotalMiss (fun v => v + 1)
          (setTotalAttempts (fun v => v + 1)
             (setTyped (fun prev => prev ++ key e)%string s)))).
Proof.
  intros Hmode Hrun Htgt Hkey Hmis.
  accept_key Hrun Htgt Hkey.
  now rewrite (Mode_eqb_neq _ _ Hmode), Hmis.
Qed.

Lemma numeric_mismatch_step (s : Trainer) (e : KeyboardEvent) (w : World) :
  mode s = digits -> isRunning s = true -> target s <> "" -> printable e ->
  key e <> char_at (target s) (String.length (progress s)) ->
  after (KeyDown e) s w =
  bumpStat (target s) false None
    (setTotalMiss (fun v => v + 1) (setTotalAttempts (fun v => v + 1) s)).
Proof.
  intros Hmode Hrun Htgt Hkey Hmis.
  accept_key Hrun Htgt Hkey.
  rewrite Hmode. cbn [Mode_eqb].
  apply String.eqb_neq in Hmis. now rewrite Hmis.
Qed.

Lemma numeric_backspace_step (s : Trainer) (e : KeyboardEvent) (w : World) :
  mode s = digits -> isRunning s = true -> target s <> "" ->
  metaKey e = false -> ctrlKey e = false -> altKey e = false ->
  key e = "Backspace" ->
  after (KeyDown e) s w =
  setProgress slice_0_m1
    (setTyped slice_0_m1 (setTotalBackspace (fun v => v + 1) s)).
Proof.
  intros Hmode Hrun Htgt Hmeta Hctrl Halt Hkey.
  unfold after, dispatch, onKeyDown.
  now rewrite Hrun, (falsy_false _ Htgt), Hmeta, Hctrl, Halt, Hkey, Hmode.
Qed.

Lemma symbol_backspace_step (s : Trainer) (e : KeyboardEvent) (w : World) :
  mode s <> digits -> key e = "Backspace" -> after (KeyDown e) s w = s.
Proof.
  intros Hmode Hkey. unfold after, dispatch, onKeyDown.
  rewrite Hkey, (Mode_eqb_neq _ _ Hmode).
  destruct (negb (isRunning s)); [reflexivity|].
  destruct (falsy (target s)); [reflexivity|].
  destruct (metaKey e || ctrlKey e || altKey e); reflexivity.
Qed.

(** C2.  In single/combo mode, while running with a non-empty target, a
    printable single-character key for which the target does not start with
    progress+key is a miss: total attempts and total miss go up by one (total
    correct does not move), the statistic of the target gets one more attempt
    with the same correct count and no duration added (other items are
    untouched), the progress buffer becomes empty, and the typed buffer is
    not reset: it is the old typed buffer followed by the mismatching key.
    The target stays. *)
Theorem mismatch_counts_miss_and_keeps_typed
    (s : Trainer) (e : KeyboardEvent) (w : World) :
  mode s <> digits -> isRunning s = true -> target s <> "" -> printable e ->
  String.prefix (progress s ++ key e) (target s) = false ->
  let s' := after (KeyDown e) s w in
  totalAttempts s' = totalAttempts s + 1 /\
  totalMiss s' = totalMiss s + 1 /\
  totalCorrect s' = totalCorrect s /\
  attempts (stat_of (target s) (statsByItem s')) =
    attempts (stat_of (target s) (statsByItem s)) + 1 /\
  correct (stat_of (target s) (statsByItem s')) =
    correct (stat_of (target s) (statsByItem s)) /\
  (totalMs (stat_of (target s) (statsByItem s')) ==
    totalMs (stat_of (target s) (statsByItem s)))%Q /\
  (forall other, other <> target s ->
     obj_get other (statsByItem s') = obj_get other (statsByItem s)) /\
  progress s' = "" /\
  typed s' = (typed s ++ key e)%string /\
  target s' = target s.
Proof.
  intros Hmode Hrun Htgt Hkey Hmis.
  rewrite (symbol_mismatch_step s e w Hmode Hrun Htgt Hkey Hmis).
  unfold bumpStat. fields. rewrite bump_target. cbn.
  repeat split; try reflexivity; try lia.
  - apply Qplus_0_r.
  - intros other Hother. now apply bump_other.
Qed.

(** C3.  In numeric mode, while running with a non-empty target, a printable
    single-character key different from the expected character
    target[progress.length] is a miss: total attempts and total miss go up by
    one and the statistic of the target records a failure, while the progress
    buffer and the typed buffer are left exactly as they were. *)
Theorem numeric_mismatch_leaves_buffers
    (s : Trainer) (e : KeyboardEvent) (w : World) :
  mode s = digits -> isRunning s = true -> target s <> "" -> printable e ->
  key e <> char_at (target s) (String.length (progress s)) ->
  let s' := after (KeyDown e) s w in
  totalAttempts s' = totalAttempts s + 1 /\
  totalMiss s' = totalMiss s + 1 /\
  totalCorrect s' = totalCorrect s /\
  attempts (stat_of (target s) (statsByItem s')) =
    attempts (stat_of (target s) (statsByItem s)) + 1 /\
  correct (stat_of (target s) (statsByItem s')) =
    correct (stat_of (target s) (statsByItem s)) /\
  (totalMs (stat_of (target s) (statsByItem s')) ==
    totalMs (stat_of (target s) (statsByItem s)))%Q /\
  progress s' = progress s /\
  typed s' = typed s /\
  target s' = target s /\
  totalBackspace s' = totalBackspace s.
Proof.
  intros Hmode Hrun Htgt Hkey Hmis.
  rewrite (numeric_mismatch_step s e w Hmode Hrun Htgt Hkey Hmis).
  unfold bumpStat. fields. rewrite bump_target. cbn.
  repeat split; try reflexivity; try lia.
  apply Qplus_0_r.
Qed.

(** C6.  While running with a non-empty target and no modifier held, a
    Backspace event in numeric mode adds one to the backspace counter and
    drops the last character of both the typed and the progress buffer
    (an empty buffer stays empty), touching nothing else; in the two other
    modes the same event changes nothing at all. *)
Theorem backspace_only_in_numeric_mode
    (s : Trainer) (e : KeyboardEvent) (w : World) :
  isRunning s = true -> target s <> "" ->
  metaKey e = false -> ctrlKey e = false -> altKey e = false ->
  key e = "Backspace" ->
  let s' := after (KeyDown e) s w in
  (mode s = digits ->
     totalBackspace s' = totalBackspace s + 1 /\
     typed s' = slice_0_m1 (typed s) /\
     progress s' = slice_0_m1 (progress s) /\
     String.length (typed s') = (String.length (typed s) - 1)%nat /\
     String.length (progress s') = (String.length (progress s) - 1)%nat /\
     String.prefix (typed s') (typed s) = true /\
     String.prefix (progress s') (progress s) = true /\
     (typed s = "" -> typed s' = "") /\
     (progress s = "" -> progress s' = "") /\
     totalAttempts s' = totalAttempts s /\
     totalCorrect s' = totalCorrect s /\
     totalMiss s' = totalMiss s /\
     target s' = target s /\
     statsByItem s' = statsByItem s) /\
  (mode s <> digits -> s' = s).
Proof.
  intros Hrun Htgt Hmeta Hctrl Halt Hkey. split.
  - intro Hmode.
    rewrite (numeric_backspace_step s e w Hmode Hrun Htgt Hmeta Hctrl Halt
               Hkey).
    fields.
    repeat split; try reflexivity; try apply slice_length;
      try apply prefix_substring.
    + now intros ->.
    + now intros ->.
  - intro Hmode. now apply symbol_backspace_step.
Qed.

(** ** One action at a time *)

(** Splits the handling of one action into the branches of the handlers. *)
Ltac step_cases :=
  unfold after, dispatch, onKeyDown, setModeAndReset, toggleRunning, resetAll,
    setDigitsSettingsAndReset, enableAllInCurrentMode, disableAllInCurrentMode,
    setEnabledForItemInCurrentMode, nextQuestion, resetQuestion, bumpStat,
    bind, ret;
  cbn [Mode_eqb nullish no_overrides o_enabledSingle o_enabledCombo
       o_digitsSettings];
  repeat match goal with
         | |- context [if ?b then _ else _] => destruct b eqn:?
         | |- context [let (_, _) := ?x in _] => destruct x eqn:?
         end;
  cbn [fst snd].

Lemma length_zero {A} (l : list A) :
  (List.length l =? 0)%nat = true -> l = [].
Proof. destruct l; simpl; [reflexivity|discriminate]. Qed.

Lemma length_nonzero {A} (l : list A) :
  (List.length l =? 0)%nat = false -> l <> [].
Proof. destruct l; simpl; discriminate. Qed.

Lemma step_prefix (s : Trainer) (a : Action) (w : World) :
  progress_is_prefix s -> progress_is_prefix (after a s w).
Proof.
  unfold progress_is_prefix. intro H.
  destruct a; step_cases; fields; try assumption; try apply prefix_empty;
    try reflexivity.
  - apply prefix_slice; assumption.
  - apply prefix_extend; try assumption.
    + now apply Nat.eqb_eq, negb_false_iff.
    + symmetry. now apply String.eqb_eq.
Qed.

Lemma step_typed (s : Trainer) (a : Action) (w : World) :
  typed_tracks_progress s -> typed_tracks_progress (after a s w).
Proof.
  unfold typed_tracks_progress. intro H.
  destruct a; step_cases; fields; try assumption; try reflexivity.
  all: try (intro Hm; rewrite Hm in *; discriminate).
  intro Hm. now rewrite (H Hm).
Qed.

Lemma step_totals (s : Trainer) (a : Action) (w : World) :
  totalAttempts s = totalCorrect s + totalMiss s ->
  totalAttempts (after a s w) =
  totalCorrect (after a s w) + totalMiss (after a s w).
Proof.
  intro H. destruct a; step_cases; fields; lia.
Qed.

Ltac absurd_bool :=
  match goal with
  | H : false = true |- _ => discriminate H
  | H : true = false |- _ => discriminate H
  | H : ?x <> ?x |- _ => now elim H
  end.

Opaque SINGLE_SYMBOLS COMBOS initEnabledMap Object_fromEntries filter.

Lemma step_pool (s : Trainer) (a : Action) (w : World) :
  offered s a = true ->
  pool_serves_target s -> pool_serves_target (after a s w).
Proof.
  intros Ho H.
  destruct a; step_cases;
    unfold pool_serves_target, pool, basePool, enabledMap, offered in *;
    fields; try assumption.
  all: try match goal with
           | H : (List.length _ =? 0)%nat = false |- _ =>
               apply length_nonzero in H
           end.
  all: try match goal with
           | H : (List.length _ =? 0)%nat = true |- _ =>
               apply length_zero in H
           end.
  all: try (destruct nextMode); destruct (mode s) eqn:Em.
  all: cbn [Mode_eqb negb andb] in *.
  all: try absurd_bool.
  all: intros Hm Ht.
  all: try absurd_bool.
  all: try (exact (H Hm Ht)).
  all: try assumption.
Qed.

Lemma slice_proper (p t : string) :
  String.prefix p t = true -> slice_0_m1 p = "" \/ slice_0_m1 p <> t.
Proof.
  intro H. destruct p as [|a p]; [now left|]. right. intro E.
  apply prefix_length in H.
  pose proof (slice_length (String a p)) as L. rewrite E in L.
  simpl in *. lia.
Qed.

Lemma step_proper (s : Trainer) (a : Action) (w : World) :
  progress_is_prefix s -> pool_serves_target s -> progress_is_proper s ->
  progress_is_proper (after a s w).
Proof.
  unfold progress_is_prefix, progress_is_proper. intros Hp Hpool H.
  destruct a; step_cases; fields; try assumption; try (left; reflexivity).
  - now apply slice_proper.
  - right. now apply String.eqb_neq.
  - exfalso. apply length_zero in Heqb7. revert Heqb7. apply Hpool.
    + intros Hm. rewrite Hm in Heqb2. discriminate Heqb2.
    + intros Ht. rewrite Ht in Heqb0. discriminate Heqb0.
  - right. now apply String.eqb_neq.
Qed.

(** ** Statistics entries *)

Section ObjShape.
Context {V : Type}.
Implicit Types (o : Obj V) (k : string) (v : V).

Lemma obj_get_In k v o : obj_get k o = Some v -> In (k, v) o.
Proof.
  induction o as [|[k' v'] o IH]; simpl; [discriminate|].
  destruct (String.eqb_spec k k') as [->|].
  - intros [= ->]. now left.
  - intro H. right. auto.
Qed.

Lemma obj_get_None k o : obj_get k o = None -> ~ In k (map fst o).
Proof.
  induction o as [|[k' v'] o IH]; simpl; [tauto|].
  destruct (String.eqb_spec k k') as [->|]; [discriminate|].
  intros H [E|HIn]; [congruence|]. now apply IH.
Qed.

Lemma obj_replace_keys k v o : map fst (obj_replace k v o) = map fst o.
Proof.
  induction o as [|[k' v'] o IH]; simpl; [reflexivity|].
  destruct (String.eqb k k'); simpl; [reflexivity|]. now rewrite IH.
Qed.

Lemma obj_replace_Forall (P : string * V -> Prop) k v o :
  (forall k', k' = k -> P (k', v)) -> Forall P o ->
  Forall P (obj_replace k v o).
Proof.
  intros Hv. induction 1 as [|[k' v'] o Hx Ho IH]; simpl; [constructor|].
  destruct (String.eqb_spec k k') as [->|]; constructor; auto.
Qed.

Lemma obj_insert_keys n k v o :
  Permutation (map fst (obj_insert_index n k v o)) (k :: map fst o).
Proof.
  induction o as [|[k' v'] o IH]; simpl; [reflexivity|].
  destruct (array_index k') as [n'|]; [|reflexivity].
  destruct (n' <? n)%N; [|reflexivity]. simpl.
  rewrite IH. apply perm_swap.
Qed.

Lemma obj_insert_Forall (P : string * V -> Prop) n k v o :
  P (k, v) -> Forall P o -> Forall P (obj_insert_index n k v o).
Proof.
  intros Hv. induction 1 as [|[k' v'] o Hx Ho IH]; simpl.
  - now constructor.
  - destruct (array_index k') as [n'|]; [|now repeat constructor].
    destruct (n' <? n)%N; now repeat constructor.
Qed.

Lemma obj_set_Forall (P : string * V -> Prop) k v o :
  P (k, v) -> Forall P o -> Forall P (obj_set k v o).
Proof.
  intros Hv Ho. unfold obj_set. destruct (obj_get k o).
  - apply obj_replace_Forall; [now intros ? ->|assumption].
  - destruct (array_index k).
    + now apply obj_insert_Forall.
    + apply Forall_app. split; [assumption|now repeat constructor].
Qed.

Lemma obj_set_NoDup k v o :
  NoDup (map fst o) -> NoDup (map fst (obj_set k v o)).
Proof.
  intro Ho. unfold obj_set. destruct (obj_get k o) eqn:E.
  - now rewrite obj_replace_keys.
  - apply obj_get_None in E. assert (NoDup (k :: map fst o)) as Hk
      by now constructor.
    destruct (array_index k).
    + eapply Permutation_NoDup; [|exact Hk].
      symmetry. apply obj_insert_keys.
    + rewrite map_app. simpl.
      eapply Permutation_NoDup; [|exact Hk].
      apply Permutation_cons_append.
Qed.
End ObjShape.

Lemma stat_of_bounds (item : string) (stats : Obj Stat) :
  stats_ok stats ->
  0 <= correct (stat_of item stats) <= attempts (stat_of item stats).
Proof.
  intros [Hall _]. unfold stat_of.
  destruct (obj_get item stats) as [st|] eqn:E; simpl; [|lia].
  apply obj_get_In in E. rewrite Forall_forall in Hall.
  apply (Hall _ E).
Qed.

Lemma bump_ok (item : string) (isCorrect : bool) (elapsedMs : option Q)
    (stats : Obj Stat) :
  stats_ok stats -> stats_ok (bump item isCorrect elapsedMs stats).
Proof.
  intros Hok. pose proof (stat_of_bounds item stats Hok) as Hb.
  destruct Hok as [Hall Hnd]. unfold bump. split.
  - apply obj_set_Forall; [|assumption].
    unfold stat_ok, stat_of in *. simpl. destruct isCorrect; lia.
  - now apply obj_set_NoDup.
Qed.

Lemma step_stats (s : Trainer) (a : Action) (w : World) :
  stats_ok (statsByItem s) -> stats_ok (statsByItem (after a s w)).
Proof.
  intro H.
  destruct a; step_cases; fields; try assumption; try (now apply bump_ok).
  all: split; constructor.
Qed.

Lemma Math_trunc_Z (z : Z) : Math_trunc (inject_Z z) = z.
Proof. unfold Math_trunc. simpl. apply Z.quot_1_r. Qed.

Lemma clampInt_range (n : number) : 1 <= clampInt n 1 50 <= 50.
Proof. unfold clampInt. destruct n; lia. Qed.

Lemma clampInt_of_Z (z : Z) : 1 <= z <= 50 -> clampInt (of_Z z) 1 50 = z.
Proof. intro H. unfold clampInt, of_Z. rewrite Math_trunc_Z. lia. Qed.

Lemma normalize_wf (next : DigitsSettings) : settings_wf (normalize next).
Proof.
  unfold settings_wf, normalize. cbn.
  pose proof (clampInt_range (minIntDigits next)).
  pose proof (clampInt_range (maxIntDigits next)).
  pose proof (clampInt_range (minFracDigits next)).
  pose proof (clampInt_range (maxFracDigits next)).
  do 4 eexists. repeat (split; [reflexivity|]). lia.
Qed.

Lemma step_settings (s : Trainer) (a : Action) (w : World) :
  settings_wf (digitsSettings s) ->
  settings_wf (digitsSettings (after a s w)).
Proof.
  intro H.
  destruct a; step_cases; fields; try assumption; apply normalize_wf.
Qed.

(** ** Every state of a session *)

Lemma init_invariant (w : World) : invariant (fst (useTrainer_init w)).
Proof.
  unfold useTrainer_init, bind, ret.
  destruct (pickRandom SINGLE_SYMBOLS w) as [t w1].
  destruct (nowMs w1) as [now w2]. cbn [fst].
  constructor; cbn.
  - apply prefix_empty.
  - now left.
  - intros _ _. unfold pool, basePool, enabledMap. cbn.
    vm_compute. discriminate.
  - discriminate.
  - reflexivity.
  - split; constructor.
  - exists 3, 7, 1, 4. repeat (split; [reflexivity|]). lia.
Qed.

Lemma step_invariant (s : Trainer) (a : Action) (w : World) :
  offered s a = true -> invariant s -> invariant (after a s w).
Proof.
  intros Ho [H1 H2 H3 H4 H5 H6 H7]. constructor.
  - now apply step_prefix.
  - now apply step_proper.
  - now apply step_pool.
  - now apply step_typed.
  - now apply step_totals.
  - now apply step_stats.
  - now apply step_settings.
Qed.

Lemma reachable_invariant (s : Trainer) : reachable s -> invariant s.
Proof.
  induction 1 as [w|s a w _ IH Ho].
  - apply init_invariant.
  - now apply (step_invariant s a w).
Qed.

(** ** Randomness *)

Lemma Math_random_range (w : World) :
  (0 <= fst (Math_random w) /\ fst (Math_random w) < 1)%Q.
Proof.
  unfold Math_random. cbn [fst].
  pose proof (Z.mod_pos_bound (entropy w (drawn w)) (Zpos two53) eq_refl) as B.
  unfold Qle, Qlt. cbn [Qnum Qden]. lia.
Qed.

Lemma floor_scale (r : Q) (n : Z) :
  (0 <= r)%Q -> (r < 1)%Q -> 0 < n -> 0 <= Math_floor (r * inject_Z n) < n.
Proof.
  intros H0 H1 Hn. unfold Math_floor. split.
  - rewrite <- (Qfloor_Z 0). apply Qfloor_resp_le.
    apply Qmult_le_0_compat; [assumption|].
    unfold Qle. cbn [Qnum Qden inject_Z]. lia.
  - rewrite Zlt_Qlt. eapply Qle_lt_trans; [apply Qfloor_le|].
    rewrite <- (Qmult_1_l (inject_Z n)) at 2.
    apply Qmult_lt_compat_r; [|assumption].
    unfold Qlt. cbn [Qnum Qden inject_Z]. lia.
Qed.

Lemma pickRandom_In (l : list string) (w : World) :
  l <> [] -> In (fst (pickRandom l w)) l.
Proof.
  intro Hl. unfold pickRandom, bind, ret.
  pose proof (Math_random_range w) as [H0 H1].
  destruct (Math_random w) as [r w1]. cbn [fst] in *.
  apply nth_In.
  assert (0 < Z.of_nat (List.length l)) as Hn by (destruct l; [congruence|simpl; lia]).
  pose proof (floor_scale r _ H0 H1 Hn). lia.
Qed.

Lemma randomInt_range (min max : Z) (w : World) :
  Z.min min max <= fst (randomInt min max w) <= Z.max min max.
Proof.
  unfold randomInt, bind, ret.
  pose proof (Math_random_range w) as [H0 H1].
  destruct (Math_random w) as [r w1]. cbn [fst] in *.
  assert (0 < Z.max min max - Z.min min max + 1) as Hn by lia.
  pose proof (floor_scale r _ H0 H1 Hn). lia.
Qed.

Lemma run_from_reachable (actions : list Action) :
  forall (s : Trainer) (w : World),
    reachable s -> offered_from actions s w = true ->
    reachable (fst (run_from actions s w)).
Proof.
  induction actions as [|a rest IH]; intros s w Hs Ho; [exact Hs|].
  cbn [run_from offered_from] in *. unfold bind.
  apply andb_true_iff in Ho. destruct Ho as [Ha Hrest].
  pose proof (reachable_step s a w Hs Ha) as Hnext.
  destruct (dispatch a s w) as [s' w']. cbn [fst] in Hnext. now apply IH.
Qed.

Lemma session_reachable (actions : list Action) (w : World) :
  session_offered actions w = true -> reachable (fst (session actions w)).
Proof.
  unfold session_offered, session, bind. intro Ho.
  pose proof (reachable_init w) as Hinit.
  destruct (useTrainer_init w) as [s w']. cbn [fst] in Hinit.
  now apply run_from_reachable.
Qed.

(** ** The claims about single keystrokes, continued *)

Lemma symbol_advance_step (s : Trainer) (e : KeyboardEvent) (w : World) :
  mode s <> digits -> isRunning s = true -> target s <> "" -> printable e ->
  String.prefix (progress s ++ key e) (target s) = true ->
  (progress s ++ key e)%string <> target s ->
  after (KeyDown e) s w =
  setProgress (const (progress s ++ key e)%string)
    (setTyped (fun prev => prev ++ key e)%string s).
Proof.
  intros Hmode Hrun Htgt Hkey Hpre Hcmp.
  accept_key Hrun Htgt Hkey.
  apply String.eqb_neq in Hcmp.
  now rewrite (Mode_eqb_neq _ _ Hmode), Hpre, Hcmp.
Qed.

Lemma symbol_completion_step (s : Trainer) (e : KeyboardEvent) (w : World) :
  mode s <> digits -> isRunning s = true -> target s <> "" -> printable e ->
  (progress s ++ key e)%string = target s ->
  pool s <> [] ->
  after (KeyDown e) s w =
  let elapsed := (clock w (reads w) - shownAt s)%Q in
  setShownAt (clock w (S (reads w)))
    (setProgress (const "")
       (setTyped (const "")
          (setTarget (const (fst (pickRandom (pool s) (snd (nowMs w)))))
             (bumpStat (target s) true (Some elapsed)
                (setTotalCorrect (fun v => v + 1)
                   (setTotalAttempts (fun v => v + 1)
                      (setLastTimeMs (const (Some elapsed))
                         (setProgress (const (target s))
                            (setTyped (fun prev => prev ++ key e)%string
                                      s))))))))).
Proof.
  intros Hmode Hrun Htgt Hkey Hcmp Hpool.
  accept_key Hrun Htgt Hkey.
  rewrite (Mode_eqb_neq _ _ Hmode), Hcmp, prefix_refl, String.eqb_refl.
  unfold nextQuestion. rewrite (Mode_eqb_neq _ _ Hmode).
  destruct (List.length (pool s) =? 0)%nat eqn:El;
    [apply length_zero in El; contradiction|].
  reflexivity.
Qed.

(** C1.  In single/combo mode, while running with a non-empty target, a
    printable single-character key for which the target starts with
    progress+key is a match.  If progress+key is not yet the whole target,
    progress becomes progress+key (the key is appended to typed, nothing is
    counted).  If progress+key equals the target the attempt is a completion:
    total attempts and total correct go up by one, the time elapsed since the
    target was shown is recorded, the statistic of the target is updated as a
    success with that duration, and a new target is drawn from the pool, with
    typed and progress cleared and the shown-time refreshed. *)
Theorem matching_key_advances_or_completes
    (s : Trainer) (e : KeyboardEvent) (w : World) :
  reachable s ->
  mode s <> digits -> isRunning s = true -> target s <> "" -> printable e ->
  String.prefix (progress s ++ key e) (target s) = true ->
  let s' := after (KeyDown e) s w in
  let elapsed := (clock w (reads w) - shownAt s)%Q in
  let before := stat_of (target s) (statsByItem s) in
  ((progress s ++ key e)%string <> target s ->
     progress s' = (progress s ++ key e)%string /\
     typed s' = (typed s ++ key e)%string /\
     target s' = target s /\
     totalAttempts s' = totalAttempts s /\
     totalCorrect s' = totalCorrect s /\
     totalMiss s' = totalMiss s /\
     statsByItem s' = statsByItem s /\
     shownAt s' = shownAt s) /\
  ((progress s ++ key e)%string = target s ->
     totalAttempts s' = totalAttempts s + 1 /\
     totalCorrect s' = totalCorrect s + 1 /\
     totalMiss s' = totalMiss s /\
     lastTimeMs s' = Some elapsed /\
     stat_of (target s) (statsByItem s') =
       mkStat (attempts before + 1) (correct before + 1)
              (totalMs before + elapsed)%Q /\
     (forall other, other <> target s ->
        obj_get other (statsByItem s') = obj_get other (statsByItem s)) /\
     target s' = fst (pickRandom (pool s) (snd (nowMs w))) /\
     In (target s') (pool s) /\
     typed s' = "" /\
     progress s' = "" /\
     shownAt s' = clock w (S (reads w))).
Proof.
  intros Hreach Hmode Hrun Htgt Hkey Hpre.
  pose proof (inv_pool s (reachable_invariant s Hreach) Hmode Htgt) as Hpool.
  split; intro Hcmp.
  - rewrite (symbol_advance_step s e w Hmode Hrun Htgt Hkey Hpre Hcmp).
    fields. repeat split; reflexivity.
  - rewrite (symbol_completion_step s e w Hmode Hrun Htgt Hkey Hcmp Hpool).
    unfold bumpStat. fields. rewrite bump_target.
    repeat split; try reflexivity.
    + intros other Hother. now apply bump_other.
    + now apply pickRandom_In.
Qed.

(** ** Invariants of the session *)

(** C4.  In every reachable state, in every mode, the progress buffer is a
    prefix of the current target; it is empty or a proper prefix (never the
    whole target); and whatever happens next (a keystroke, Backspace, a
    completion, a mode change, a target change or a full reset) leaves it a
    prefix of the target of the new state. *)
Theorem progress_is_always_prefix_of_target (s : Trainer) :
  reachable s ->
  String.prefix (progress s) (target s) = true /\
  (progress s = "" \/ progress s <> target s) /\
  (forall (a : Action) (w : World),
     String.prefix (progress (after a s w)) (target (after a s w)) = true).
Proof.
  intro Hreach. destruct (reachable_invariant s Hreach) as [Hp Hs _ _ _ _ _].
  split; [exact Hp|]. split; [exact Hs|].
  intros a w. now apply step_prefix.
Qed.

Lemma key_counts (s : Trainer) (e : KeyboardEvent) (w : World) :
  let s' := after (KeyDown e) s w in
  (totalAttempts s' = totalAttempts s /\
   totalCorrect s' = totalCorrect s /\ totalMiss s' = totalMiss s) \/
  (totalAttempts s' = totalAttempts s + 1 /\
   totalCorrect s' = totalCorrect s + 1 /\ totalMiss s' = totalMiss s) \/
  (totalAttempts s' = totalAttempts s + 1 /\
   totalCorrect s' = totalCorrect s /\ totalMiss s' = totalMiss s + 1).
Proof.
  step_cases; fields;
    first [ left; repeat split; reflexivity
          | right; left; repeat split; reflexivity
          | right; right; repeat split; reflexivity ].
Qed.

(** C9.  In every reachable state total attempts = total correct + total
    miss, and every per-item statistic has correct <= attempts; a keystroke
    either leaves the three totals alone or adds one to total attempts and to
    exactly one of total correct and total miss; a full reset puts all three
    back to 0. *)
Theorem attempts_are_correct_plus_miss (s : Trainer) :
  reachable s ->
  totalAttempts s = totalCorrect s + totalMiss s /\
  (forall (item : string) (st : Stat),
     obj_get item (statsByItem s) = Some st ->
     0 <= correct st <= attempts st) /\
  (forall (e : KeyboardEvent) (w : World),
     let s' := after (KeyDown e) s w in
     (totalAttempts s' = totalAttempts s /\
      totalCorrect s' = totalCorrect s /\ totalMiss s' = totalMiss s) \/
     (totalAttempts s' = totalAttempts s + 1 /\
      totalCorrect s' = totalCorrect s + 1 /\ totalMiss s' = totalMiss s) \/
     (totalAttempts s' = totalAttempts s + 1 /\
      totalCorrect s' = totalCorrect s /\ totalMiss s' = totalMiss s + 1)) /\
  (forall (w : World),
     let s' := after ClickReset s w in
     totalAttempts s' = 0 /\ totalCorrect s' = 0 /\ totalMiss s' = 0 /\
     statsByItem s' = []).
Proof.
  intro Hreach.
  destruct (reachable_invariant s Hreach) as [_ _ _ _ Ht [Hall _] _].
  split; [exact Ht|]. split; [|split].
  - intros item st Hget. apply obj_get_In in Hget.
    rewrite Forall_forall in Hall. apply (Hall _ Hget).
  - intros e w. apply key_counts.
  - intro w. step_cases; fields; repeat split; reflexivity.
Qed.

(** C10.  In numeric mode the typed buffer equals the progress buffer, in
    every reachable state and after every further action.  For a printable
    key in numeric mode: a key equal to the expected character sets both
    buffers to the same string (progress+key, or the empty string when that
    completes the target), a key different from it changes neither.
    Backspace drops the last character of both, and any action that changes
    the target clears both. *)
Theorem numeric_typed_equals_progress (s : Trainer) :
  reachable s ->
  (mode s = digits -> typed s = progress s) /\
  (forall (a : Action) (w : World),
     mode (after a s w) = digits ->
     typed (after a s w) = progress (after a s w)) /\
  (forall (e : KeyboardEvent) (w : World),
     mode s = digits -> isRunning s = true -> target s <> "" ->
     printable e ->
     let s' := after (KeyDown e) s w in
     let expected := char_at (target s) (String.length (progress s)) in
     (key e = expected ->
        typed s' = progress s' /\
        (progress s' = (progress s ++ key e)%string \/ progress s' = "")) /\
     (key e <> expected ->
        typed s' = typed s /\ progress s' = progress s)) /\
  (forall (e : KeyboardEvent) (w : World),
     mode s = digits -> isRunning s = true -> target s <> "" ->
     metaKey e = false -> ctrlKey e = false -> altKey e = false ->
     key e = "Backspace" ->
     let s' := after (KeyDown e) s w in
     typed s' = slice_0_m1 (typed s) /\
     progress s' = slice_0_m1 (progress s)) /\
  (forall (a : Action) (w : World),
     target (after a s w) <> target s ->
     typed (after a s w) = "" /\ progress (after a s w) = "").
Proof.
  intro Hreach.
  destruct (reachable_invariant s Hreach) as [_ _ _ Hty _ _ _].
  split; [exact Hty|]. split; [|split; [|split]].
  - intros a w. now apply step_typed.
  - intros e w Hmode Hrun Htgt Hkey s' expected. split.
    + intro Hexp. split.
      * apply (step_typed s (KeyDown e) w Hty).
        subst s'. revert Hmode. clear. intro Hmode.
        step_cases; fields; assumption.
      * subst s' expected. accept_key Hrun Htgt Hkey.
        rewrite Hmode. cbn [Mode_eqb]. rewrite <- Hexp, String.eqb_refl.
        step_cases; fields;
          first [ left; reflexivity | right; reflexivity ].
    + intro Hne. subst s'.
      rewrite (numeric_mismatch_step s e w Hmode Hrun Htgt Hkey Hne).
      split; reflexivity.
  - intros e w Hmode Hrun Htgt Hmeta Hctrl Halt Hkey.
    rewrite (numeric_backspace_step s e w Hmode Hrun Htgt Hmeta Hctrl Halt
               Hkey).
    split; reflexivity.
  - intros a w.
    destruct a; step_cases; fields;
      first [ intro Hn; exact (False_ind _ (Hn eq_refl))
            | intros _; split; reflexivity ].
Qed.

(** ** Numeric-generation settings *)

Lemma Math_min_of_Z (a b : Z) : Math_min (of_Z a) (of_Z b) = of_Z (Z.min a b).
Proof.
  unfold Math_min, of_Z. destruct (Qle_bool (inject_Z a) (inject_Z b)) eqn:E.
  - apply Qle_bool_iff in E. rewrite <- Zle_Qle in E.
    now rewrite Z.min_l.
  - assert (~ a <= b) as H.
    { intro H. rewrite Zle_Qle in H. apply Qle_bool_iff in H. congruence. }
    now rewrite Z.min_r by lia.
Qed.

Lemma Math_max_of_Z (a b : Z) : Math_max (of_Z a) (of_Z b) = of_Z (Z.max a b).
Proof.
  unfold Math_max, of_Z. destruct (Qle_bool (inject_Z b) (inject_Z a)) eqn:E.
  - apply Qle_bool_iff in E. rewrite <- Zle_Qle in E.
    now rewrite Z.max_l.
  - assert (~ b <= a) as H.
    { intro H. rewrite Zle_Qle in H. apply Qle_bool_iff in H. congruence. }
    now rewrite Z.max_r by lia.
Qed.

(** The form keeps the pair it edits ordered before it hands the settings
    over, and normalisation then changes nothing more. *)
Lemma form_edits_adjust_the_pair (a b c e : Z) (sg dc : bool)
    (value : number) :
  1 <= a <= b -> b <= 50 -> 1 <= c <= e -> e <= 50 ->
  let cur := mkDigitsSettings (of_Z a) (of_Z b) sg dc (of_Z c) (of_Z e) in
  let v := clampInt value 1 50 in
  normalize (onChange_minIntDigits cur value) =
    mkDigitsSettings (of_Z (Z.min v b)) (of_Z b) sg dc (of_Z c) (of_Z e) /\
  normalize (onChange_maxIntDigits cur value) =
    mkDigitsSettings (of_Z a) (of_Z (Z.max v a)) sg dc (of_Z c) (of_Z e) /\
  normalize (onChange_minFracDigits cur value) =
    mkDigitsSettings (of_Z a) (of_Z b) sg dc (of_Z (Z.min v e)) (of_Z e) /\
  normalize (onChange_maxFracDigits cur value) =
    mkDigitsSettings (of_Z a) (of_Z b) sg dc (of_Z c) (of_Z (Z.max v c)).
Proof.
  intros Ha Hb Hc He cur v.
  pose proof (clampInt_range value) as Hv. fold v in Hv.
  unfold normalize, onChange_minIntDigits, onChange_maxIntDigits,
    onChange_minFracDigits, onChange_maxFracDigits, cur.
  cbn [minIntDigits maxIntDigits minFracDigits maxFracDigits enableSign
       enableDecimal].
  fold v. rewrite !Math_min_of_Z, !Math_max_of_Z.
  rewrite !clampInt_of_Z by lia.
  repeat split; f_equal; f_equal; lia.
Qed.

(** C7.  Whatever settings an edit hands to setDigitsSettingsAndReset, the
    settings stored afterwards hold four whole numbers within [1, 50] with
    minIntDigits <= maxIntDigits and minFracDigits <= maxFracDigits: each
    bound is the clamped input, the minimum of a pair lowered to its maximum
    where it exceeded it; a bound given as a non-finite value is stored
    as 1.  The two switches are stored as given. *)
Theorem stored_digits_settings_are_normalised
    (s : Trainer) (next : DigitsSettings) (w : World) :
  let d := digitsSettings (after (ChangeDigitsSettings next) s w) in
  exists a b c e,
    minIntDigits d = of_Z a /\ maxIntDigits d = of_Z b /\
    minFracDigits d = of_Z c /\ maxFracDigits d = of_Z e /\
    (1 <= a <= b /\ b <= 50) /\ (1 <= c <= e /\ e <= 50) /\
    a = Z.min (clampInt (minIntDigits next) 1 50)
              (clampInt (maxIntDigits next) 1 50) /\
    b = clampInt (maxIntDigits next) 1 50 /\
    c = Z.min (clampInt (minFracDigits next) 1 50)
              (clampInt (maxFracDigits next) 1 50) /\
    e = clampInt (maxFracDigits next) 1 50 /\
    (Number_isFinite (minIntDigits next) = false -> a = 1) /\
    (Number_isFinite (maxIntDigits next) = false -> b = 1) /\
    (Number_isFinite (minFracDigits next) = false -> c = 1) /\
    (Number_isFinite (maxFracDigits next) = false -> e = 1) /\
    enableSign d = enableSign next /\ enableDecimal d = enableDecimal next.
Proof.
  intro d.
  assert (d = normalize next) as ->.
  { unfold d. step_cases; fields; reflexivity. }
  pose proof (clampInt_range (minIntDigits next)).
  pose proof (clampInt_range (maxIntDigits next)).
  pose proof (clampInt_range (minFracDigits next)).
  pose proof (clampInt_range (maxFracDigits next)).
  exists (Z.min (clampInt (minIntDigits next) 1 50)
                (clampInt (maxIntDigits next) 1 50)),
         (clampInt (maxIntDigits next) 1 50),
         (Z.min (clampInt (minFracDigits next) 1 50)
                (clampInt (maxFracDigits next) 1 50)),
         (clampInt (maxFracDigits next) 1 50).
  unfold normalize.
  cbn [minIntDigits maxIntDigits minFracDigits maxFracDigits enableSign
       enableDecimal].
  repeat match goal with |- _ /\ _ => split end;
    try reflexivity; try lia; try (f_equal; lia).
  - destruct (minIntDigits next); cbn; try discriminate; intros _; lia.
  - destruct (maxIntDigits next); cbn; try discriminate; intros _; lia.
  - destruct (minFracDigits next); cbn; try discriminate; intros _; lia.
  - destruct (maxFracDigits next); cbn; try discriminate; intros _; lia.
Qed.

(** ** The ranked view *)

Section Sorting.
Context {A : Type} (compare : A -> A -> Q) (before : A -> A -> Prop).
Hypothesis compare_before :
  forall x y, Qle_bool (compare x y) 0 = true <-> before x y.
Hypothesis before_total : forall x y, before x y \/ before y x.
Hypothesis before_trans :
  forall x y z, before x y -> before y z -> before x z.

Lemma sort_insert_perm (x : A) (l : list A) :
  Permutation (sort_insert compare x l) (x :: l).
Proof.
  induction l as [|y l IH]; simpl; [reflexivity|].
  destruct (Qle_bool (compare x y) 0); [reflexivity|].
  rewrite IH. apply perm_swap.
Qed.

Lemma Array_sort_perm (l : list A) : Permutation (Array_sort compare l) l.
Proof.
  induction l as [|x l IH]; simpl; [reflexivity|].
  rewrite sort_insert_perm. now constructor.
Qed.

Lemma sort_insert_sorted (x : A) (l : list A) :
  StronglySorted before l -> StronglySorted before (sort_insert compare x l).
Proof.
  induction 1 as [|y l Hl IH Hy]; simpl; [repeat constructor|].
  destruct (Qle_bool (compare x y) 0) eqn:E.
  - apply compare_before in E. constructor; [now constructor|].
    constructor; [assumption|].
    rewrite Forall_forall in *. eauto.
  - assert (before y x) as Hyx.
    { destruct (before_total x y) as [H|H]; [|assumption].
      apply compare_before in H. congruence. }
    constructor; [assumption|].
    rewrite Forall_forall in *. intros z Hz.
    apply (Permutation_in _ (sort_insert_perm x l)) in Hz.
    destruct Hz as [<-|Hz]; auto.
Qed.

Lemma Array_sort_sorted (l : list A) :
  StronglySorted before (Array_sort compare l).
Proof.
  induction l as [|x l IH]; simpl; [constructor|].
  now apply sort_insert_sorted.
Qed.
End Sorting.

Lemma rank_compare_before (a b : RankedStat) :
  Qle_bool (rank_compare a b) 0 = true <-> ranks_before a b.
Proof.
  unfold rank_compare, ranks_before. rewrite Qle_bool_iff.
  destruct (Qeq_bool (acc a) (acc b)) eqn:E; cbn [negb].
  - apply Qeq_bool_iff in E. unfold Qle. cbn [Qnum Qden inject_Z]. split.
    + intro H. right. split; [assumption|lia].
    + intros [H|[_ H]]; [lra|lia].
  - apply Qeq_bool_neq in E. split.
    + intro H. left.
      destruct (Qlt_le_dec (acc a) (acc b)) as [Hlt|Hge]; [assumption|].
      exfalso. apply E. lra.
    + intros [H|[H _]]; [lra|contradiction].
Qed.

Lemma ranks_before_total (a b : RankedStat) :
  ranks_before a b \/ ranks_before b a.
Proof.
  unfold ranks_before.
  destruct (Q_dec (acc a) (acc b)) as [[H|H]|H]; auto.
  destruct (Z_le_gt_dec (r_attempts b) (r_attempts a)).
  - left. right. now split.
  - right. right. split; [now symmetry|lia].
Qed.

Lemma ranks_before_trans (a b c : RankedStat) :
  ranks_before a b -> ranks_before b c -> ranks_before a c.
Proof.
  unfold ranks_before. intros [H1|[H1 A1]] [H2|[H2 A2]].
  - left. lra.
  - left. lra.
  - left. lra.
  - right. split; [lra|lia].
Qed.

Lemma obj_get_Some {V} (k : string) (o : Obj V) :
  In k (map fst o) -> exists v, obj_get k o = Some v.
Proof.
  induction o as [|[k' v'] o IH]; simpl; [tauto|].
  destruct (String.eqb_spec k k') as [->|Hne]; [now eauto|].
  intros [E|HIn]; [congruence|auto].
Qed.

Lemma item_rank_entry (entry : string * Stat) :
  item (rank_entry entry) = fst entry.
Proof. now destruct entry. Qed.

Lemma attempted_iff_listed (i : string) (stats : Obj Stat) :
  stats_ok stats ->
  In i (map fst stats) <-> 1 <= attempts (stat_of i stats).
Proof.
  intros [Hall _]. unfold stat_of. split.
  - intro HIn. destruct (obj_get_Some i stats HIn) as [st Hst].
    rewrite Hst. cbn. apply obj_get_In in Hst.
    rewrite Forall_forall in Hall. apply (Hall _ Hst).
  - destruct (obj_get i stats) as [st|] eqn:E; cbn; [|lia].
    intros _. apply obj_get_In in E.
    change i with (fst (i, st)). now apply in_map.
Qed.

(** C8.  For the statistics of every reachable state: each entry has at
    least one attempt; the accuracy derived for an item is
    correct/attempts*100, and 0 for an item without attempts; its average
    duration is the accumulated duration divided by the correct count and is
    absent when the correct count is 0; the ranked view is the first 10 of a
    list that holds exactly the items with at least one attempt, once each,
    ordered by accuracy ascending and, among equal accuracies, by attempts
    descending; and the overall accuracy is total correct / total attempts *
    100, or 0 when there are no attempts. *)
Theorem ranked_view_lists_weakest_items (s : Trainer) :
  reachable s ->
  (forall (i : string) (st : Stat),
     (attempts st = 0 -> acc (rank_entry (i, st)) = 0%Q) /\
     (attempts st <> 0 ->
      acc (rank_entry (i, st)) =
      (inject_Z (correct st) / inject_Z (attempts st) * 100)%Q) /\
     (correct st = 0 -> avg (rank_entry (i, st)) = None) /\
     (correct st <> 0 ->
      avg (rank_entry (i, st)) =
      Some (totalMs st / inject_Z (correct st))%Q)) /\
  (exists full : list RankedStat,
     ranked s = firstn 10 full /\
     Permutation full (map rank_entry (statsByItem s)) /\
     StronglySorted ranks_before full /\
     NoDup (map item full) /\
     (forall i : string,
        In i (map item full) <->
        1 <= attempts (stat_of i (statsByItem s)))) /\
  (totalAttempts s = 0 -> accuracy s = 0%Q) /\
  (totalAttempts s <> 0 ->
   accuracy s =
   (inject_Z (totalCorrect s) / inject_Z (totalAttempts s) * 100)%Q).
Proof.
  intro Hreach.
  destruct (reachable_invariant s Hreach) as [_ _ _ _ _ Hok _].
  split; [|split; [|split]].
  - intros i st. unfold rank_entry. cbn [acc avg].
    repeat split.
    + now intros ->.
    + intro H. apply Z.eqb_neq in H. now rewrite H.
    + now intros ->.
    + intro H. apply Z.eqb_neq in H. now rewrite H.
  - exists (Array_sort rank_compare (map rank_entry (statsByItem s))).
    pose proof (Array_sort_perm rank_compare
                  (map rank_entry (statsByItem s))) as Hperm.
    assert (Permutation
              (map item (Array_sort rank_compare
                           (map rank_entry (statsByItem s))))
              (map fst (statsByItem s))) as Hitems.
    { rewrite Hperm, map_map.
      erewrite map_ext; [reflexivity|]. apply item_rank_entry. }
    split; [reflexivity|]. split; [exact Hperm|]. split; [|split].
    + apply Array_sort_sorted.
      * apply rank_compare_before.
      * apply ranks_before_total.
      * apply ranks_before_trans.
    + eapply Permutation_NoDup; [symmetry; exact Hitems|]. apply Hok.
    + intro i. rewrite <- (attempted_iff_listed i _ Hok).
      split; apply Permutation_in; [|symmetry]; exact Hitems.
  - intro H. unfold accuracy. now rewrite H.
  - intro H. unfold accuracy. apply Z.eqb_neq in H. now rewrite H.
Qed.

(** ** The numeric-target generator *)

Lemma digit_not_sign (c : ascii) : is_digit c = true -> is_sign c = false.
Proof.
  destruct c as [[] [] [] [] [] [] [] []]; vm_compute; congruence.
Qed.

Lemma digit_not_point (c : ascii) :
  is_digit c = true -> Ascii.eqb c "." = false.
Proof.
  destruct c as [[] [] [] [] [] [] [] []]; vm_compute; congruence.
Qed.

Lemma String_of_int_digit (d : Z) :
  0 <= d <= 9 ->
  exists c, String_of_int d = String c "" /\ is_digit c = true /\
            (1 <= d -> Ascii.eqb c "0" = false).
Proof.
  intro H.
  assert (d = 0 \/ d = 1 \/ d = 2 \/ d = 3 \/ d = 4 \/ d = 5 \/ d = 6 \/
          d = 7 \/ d = 8 \/ d = 9) as Hd by lia.
  repeat (destruct Hd as [->|Hd]); try subst d;
    (eexists; split; [vm_compute; reflexivity|];
     split; [reflexivity|]; intro; first [lia | reflexivity]).
Qed.

Lemma buildDigitsLoop_spec (todo : nat) :
  forall (i : Z) (firstNonZero : bool) (chars : list string) (w : World),
    0 <= i ->
    exists cs,
      fst (buildDigitsLoop todo i firstNonZero chars w) =
        chars ++ chars_of cs /\
      List.length cs = todo /\
      forallb is_digit cs = true /\
      (i = 0 -> firstNonZero = true ->
       leading_zero (string_of_list_ascii cs) = false).
Proof.
  induction todo as [|todo IH]; intros i fnz chars w Hi.
  - exists []. cbn. rewrite app_nil_r. repeat split; reflexivity.
  - cbn [buildDigitsLoop]. unfold bind.
    set (draw := if (i =? 0) && fnz then randomInt 1 9 else randomInt 0 9).
    assert (0 <= fst (draw w) <= 9 /\
            (i = 0 -> fnz = true -> 1 <= fst (draw w))) as [Hd Hnz].
    { unfold draw. destruct ((i =? 0) && fnz) eqn:E.
      - pose proof (randomInt_range 1 9 w). split; [lia|]. intros; lia.
      - pose proof (randomInt_range 0 9 w). split; [lia|].
        intros -> ->. discriminate E. }
    destruct (draw w) as [digit w1]. cbn [fst] in Hd, Hnz.
    destruct (String_of_int_digit digit Hd) as (c & Hc & Hdig & Hzero).
    destruct (IH (i + 1) fnz (chars ++ [String_of_int digit]) w1
                ltac:(lia)) as (cs & Hres & Hlen & Hall & _).
    exists (c :: cs). rewrite Hres, Hc, <- app_assoc. cbn.
    rewrite Hdig, Hall, Hlen. repeat split; try reflexivity.
    intros H0 Hf. apply Hzero. now apply Hnz.
Qed.

Lemma concat_chars_of (cs : list ascii) :
  String.concat "" (chars_of cs) = string_of_list_ascii cs.
Proof.
  induction cs as [|c cs IH]; [reflexivity|].
  destruct cs as [|c' cs]; [reflexivity|].
  change (String.concat "" (chars_of (c :: c' :: cs)))
    with (String c "" ++ "" ++ String.concat "" (chars_of (c' :: cs)))%string.
  now rewrite IH.
Qed.

Lemma length_string_of_list (cs : list ascii) :
  String.length (string_of_list_ascii cs) = List.length cs.
Proof. induction cs; simpl; congruence. Qed.

Lemma all_digits_of_list (cs : list ascii) :
  all_digits (string_of_list_ascii cs) = forallb is_digit cs.
Proof. induction cs as [|c cs IH]; simpl; [reflexivity|]. now rewrite IH. Qed.

(** [buildDigitsString] returns max(1, len) digits, the first of them not
    "0" when asked so. *)
Lemma buildDigitsString_spec (len : Z) (firstNonZero : bool) (w : World) :
  let t := fst (buildDigitsString len firstNonZero w) in
  all_digits t = true /\
  String.length t = Z.to_nat (Z.max 1 len) /\
  t <> "" /\
  (firstNonZero = true -> leading_zero t = false).
Proof.
  unfold buildDigitsString, bind, ret.
  destruct (buildDigitsLoop_spec (Z.to_nat (Z.max 1 len)) 0 firstNonZero []
              w (Z.le_refl 0)) as (cs & Hres & Hlen & Hall & Hz).
  destruct (buildDigitsLoop _ _ _ _ w) as [chars w1].
  cbn [fst] in *. subst chars. cbn [app].
  rewrite concat_chars_of, all_digits_of_list, length_string_of_list.
  repeat split; try assumption.
  - intro E. apply (f_equal String.length) in E.
    rewrite length_string_of_list in E. cbn in E. lia.
  - now apply Hz.
Qed.

Lemma take_digits_app (ds rest : string) :
  all_digits ds = true ->
  take_digits (ds ++ rest) = (ds ++ take_digits rest)%string.
Proof.
  induction ds as [|c ds IH]; simpl; [reflexivity|].
  intro H. apply andb_true_iff in H. destruct H as [Hc Hds].
  now rewrite Hc, IH.
Qed.

Lemma drop_digits_app (ds rest : string) :
  all_digits ds = true -> drop_digits (ds ++ rest) = drop_digits rest.
Proof.
  induction ds as [|c ds IH]; simpl; [reflexivity|].
  intro H. apply andb_true_iff in H. destruct H as [Hc Hds].
  now rewrite Hc, IH.
Qed.

Lemma append_empty_r (t : string) : (t ++ "")%string = t.
Proof. induction t; simpl; congruence. Qed.

(** Reading back what the generator assembles. *)
Lemma read_unsigned_built (sign int : string) (frac : option string) :
  all_digits int = true -> int <> "" ->
  (forall f, frac = Some f -> all_digits f = true /\ f <> "") ->
  read_unsigned sign (int ++ match frac with
                             | Some f => "." ++ f
                             | None => ""
                             end) =
  Some (mkLiteral sign int frac).
Proof.
  intros Hint Hne Hfrac. unfold read_unsigned.
  rewrite take_digits_app, drop_digits_app by assumption.
  destruct int as [|c int]; [congruence|].
  destruct frac as [f|].
  - destruct (Hfrac f eq_refl) as [Hf Hfne].
    cbn [take_digits drop_digits String.append is_digit].
    change (is_digit ".") with false. cbv iota.
    rewrite append_empty_r. cbn [String.append].
    rewrite Hf, (falsy_false _ Hfne). reflexivity.
  - cbn [take_digits drop_digits]. rewrite !append_empty_r. reflexivity.
Qed.

Lemma read_literal_built (sign int : string) (frac : option string) :
  sign = "" \/ sign = "+" \/ sign = "-" ->
  all_digits int = true -> int <> "" ->
  (forall f, frac = Some f -> all_digits f = true /\ f <> "") ->
  read_literal (sign ++ int ++ match frac with
                               | Some f => "." ++ f
                               | None => ""
                               end) =
  Some (mkLiteral sign int frac).
Proof.
  intros Hsign Hint Hne Hfrac.
  pose proof (read_unsigned_built "" int frac Hint Hne Hfrac) as H0.
  destruct Hsign as [-> | [-> | ->]]; cbn [String.append read_literal].
  - destruct int as [|c int]; [congruence|].
    cbn [String.append read_literal] in *.
    pose proof Hint as Hc. cbn [all_digits] in Hc.
    apply andb_true_iff in Hc. destruct Hc as [Hc _].
    now rewrite (digit_not_sign c Hc).
  - change (is_sign "+") with true. cbv iota.
    now apply read_unsigned_built.
  - change (is_sign "-") with true. cbv iota.
    now apply read_unsigned_built.
Qed.

Lemma Qltb_zero (r : Q) : (0 <= r)%Q -> Qltb r 0 = false.
Proof.
  intro H. unfold Qltb. apply Qle_bool_iff in H. now rewrite H.
Qed.

Lemma clamped_range_holds (lo hi : number) (n : Z) :
  Z.min (clampInt lo 1 50) (clampInt hi 1 50) <= n
    <= Z.max (clampInt lo 1 50) (clampInt hi 1 50) ->
  clamped_range lo hi (Z.to_nat (Z.max 1 n)) = true.
Proof.
  intro H. unfold clamped_range.
  pose proof (clampInt_range lo). pose proof (clampInt_range hi).
  rewrite Z2Nat.id by lia.
  apply andb_true_iff. split; apply Z.leb_le; lia.
Qed.

(** The sign is drawn only when signs are enabled, and is "+" or "-". *)
Lemma sign_choice (enabled : bool) (r : Q) (w : World) :
  (0 <= r)%Q ->
  let sign :=
    fst ((if Qltb r (if enabled then double_0_3 else 0%Q)
          then r3 <- Math_random ;;
               ret (if Qltb r3 double_0_5 then "+" else "-")
          else ret "") w) in
  sign = "" \/ (enabled = true /\ (sign = "+" \/ sign = "-")).
Proof.
  intros Hr sign. subst sign.
  destruct enabled.
  - destruct (Qltb r double_0_3); [|now left].
    right. split; [reflexivity|]. unfold bind, ret.
    destruct (Math_random w) as [r3 w']. cbn [fst].
    destruct (Qltb r3 double_0_5); auto.
  - rewrite (Qltb_zero r Hr). now left.
Qed.

Lemma literal_meets_built (int_range frac_range : nat -> bool)
    (settings : DigitsSettings) (sign int : string) (frac : option string) :
  sign = "" \/ (enableSign settings = true /\ (sign = "+" \/ sign = "-")) ->
  all_digits int = true -> int <> "" ->
  int_range (String.length int) = true ->
  (forall f, frac = Some f ->
     all_digits f = true /\ f <> "" /\ enableDecimal settings = true /\
     frac_range (String.length f) = true) ->
  (frac = None -> leading_zero int = false) ->
  literal_meets int_range frac_range settings
    (sign ++ int ++ match frac with
                    | Some f => "." ++ f
                    | None => ""
                    end) = true.
Proof.
  intros Hsign Hint Hne Hrange Hfrac Hzero. unfold literal_meets.
  rewrite read_literal_built; try assumption.
  - cbn [lit_sign lit_int lit_frac]. rewrite Hrange.
    assert (falsy sign ||
            enableSign settings &&
            (String.eqb sign "+" || String.eqb sign "-") = true) as ->.
    { destruct Hsign as [-> | [-> [-> | ->]]]; reflexivity. }
    destruct frac as [f|].
    + destruct (Hfrac f eq_refl) as (_ & _ & -> & ->). reflexivity.
    + now rewrite Hzero.
  - destruct Hsign as [-> | [_ [-> | ->]]]; auto.
  - intros f Hf. destruct (Hfrac f Hf) as (? & ? & _). now split.
Qed.

(** For all settings the generated literal keeps to the ranges the generator
    draws from. *)
Lemma generated_literal_clamped (settings : DigitsSettings) (w : World) :
  literal_meets
    (clamped_range (minIntDigits settings) (maxIntDigits settings))
    (clamped_range (minFracDigits settings) (maxFracDigits settings))
    settings (fst (generateDigitsTarget settings w)) = true.
Proof.
  unfold generateDigitsTarget.
  unfold bind at 1.
  pose proof (randomInt_range (clampInt (minIntDigits settings) 1 50)
                (clampInt (maxIntDigits settings) 1 50) w) as HintLen.
  destruct (randomInt _ _ w) as [intLen w1]. cbn [fst] in HintLen.
  unfold bind at 1.
  pose proof (Math_random_range w1) as [Hr1 _].
  destruct (Math_random w1) as [r1 w2]. cbn [fst] in Hr1.
  unfold bind at 1.
  pose proof (Math_random_range w2) as [Hr2 _].
  destruct (Math_random w2) as [r2 w3]. cbn [fst] in Hr2.
  unfold bind at 1.
  pose proof (sign_choice (enableSign settings) r2 w3 Hr2) as Hsign.
  cbv zeta in Hsign.
  match type of Hsign with
  | fst ?c = _ \/ _ => destruct c as [sign w4]
  end.
  cbn [fst] in Hsign.
  destruct (Qltb r1 (if enableDecimal settings then double_0_3 else 0%Q))
    eqn:Hdec; cbn [negb].
  - assert (enableDecimal settings = true) as Hen.
    { destruct (enableDecimal settings); [reflexivity|].
      rewrite (Qltb_zero r1 Hr1) in Hdec. discriminate Hdec. }
    unfold bind at 1.
    pose proof (buildDigitsString_spec intLen false w4) as (Hi1 & Hi2 & Hi3 & _).
    destruct (buildDigitsString intLen false w4) as [intPart w5].
    cbn [fst] in *.
    unfold bind at 1.
    pose proof (randomInt_range (clampInt (minFracDigits settings) 1 50)
                  (clampInt (maxFracDigits settings) 1 50) w5) as HfracLen.
    destruct (randomInt _ _ w5) as [fracLen w6]. cbn [fst] in HfracLen.
    unfold bind at 1.
    pose proof (buildDigitsString_spec fracLen false w6) as (Hf1 & Hf2 & Hf3 & _).
    destruct (buildDigitsString fracLen false w6) as [fracPart w7].
    cbn [fst ret] in *.
    apply (literal_meets_built _ _ settings sign intPart (Some fracPart));
      try assumption.
    + rewrite Hi2. now apply clamped_range_holds.
    + intros f [= <-]. repeat split; try assumption.
      rewrite Hf2. now apply clamped_range_holds.
    + discriminate.
  - unfold bind at 1.
    pose proof (buildDigitsString_spec intLen true w4) as (Hi1 & Hi2 & Hi3 & Hi4).
    destruct (buildDigitsString intLen true w4) as [digits w5].
    cbn [fst ret] in *.
    rewrite <- (append_empty_r digits).
    apply (literal_meets_built _ _ settings sign digits None);
      try assumption.
    + rewrite Hi2. now apply clamped_range_holds.
    + discriminate.
    + intros _. now apply Hi4.
Qed.


(** C5, as stated, fails for settings outside what the form can produce:
    asked for 60 to 70 integer digits, the generator returns a literal of 50
    digits, which is not within the configured range. *)
Lemma generated_literal_outside_configured_range :
  literal_meets
    (configured_range (minIntDigits oversized_settings)
                      (maxIntDigits oversized_settings))
    (configured_range (minFracDigits oversized_settings)
                      (maxFracDigits oversized_settings))
    oversized_settings
    (fst (generateDigitsTarget oversized_settings (world_of []))) = false
  /\ String.length
       (fst (generateDigitsTarget oversized_settings (world_of [])))
     = 50%nat.
Proof. split; vm_compute; reflexivity. Qed.

Lemma number_leb_of_Z (a b : Z) : number_leb (of_Z a) (of_Z b) = (a <=? b).
Proof.
  unfold number_leb, of_Z, Qle_bool. cbn [Qnum Qden inject_Z].
  now rewrite !Z.mul_1_r.
Qed.

Lemma configured_is_clamped (a b : Z) (n : nat) :
  1 <= a <= b -> b <= 50 ->
  configured_range (of_Z a) (of_Z b) n = clamped_range (of_Z a) (of_Z b) n.
Proof.
  intros Ha Hb. unfold configured_range, clamped_range.
  rewrite !number_leb_of_Z, !clampInt_of_Z by lia.
  now rewrite Z.min_l, Z.max_r by lia.
Qed.

Lemma literal_meets_ext (f f' g g' : nat -> bool)
    (settings : DigitsSettings) (t : string) :
  (forall n, f n = f' n) -> (forall n, g n = g' n) ->
  literal_meets f g settings t = literal_meets f' g' settings t.
Proof.
  intros Hf Hg. unfold literal_meets.
  destruct (read_literal t) as [l|]; [|reflexivity].
  rewrite Hf. destruct (lit_frac l); [now rewrite Hg|reflexivity].
Qed.

(** C5, as the code has it.  For all settings, every string returned by
    generateDigitsTarget is an optional sign, a run of digits and
    optionally a point and a second run of digits, where: the number of
    integer digits lies within the integer-digit range the generator draws
    from (each of the two settings clamped to [1, 50], the pair put in
    ascending order) and, when a point is present, the number of fractional
    digits lies within the fractional range formed the same way; there is no
    leading zero when no point is present; a sign is present only when sign
    is enabled and is then "+" or "-"; and a point is present only when
    decimal is enabled.  For settings as the trainer stores them (whole
    numbers within [1, 50], each minimum at most its maximum) those ranges
    are the configured [min, max] themselves. *)
Theorem generated_literal_meets_settings
    (settings : DigitsSettings) (w : World) :
  literal_meets
    (clamped_range (minIntDigits settings) (maxIntDigits settings))
    (clamped_range (minFracDigits settings) (maxFracDigits settings))
    settings (fst (generateDigitsTarget settings w)) = true /\
  (settings_wf settings ->
   literal_meets
     (configured_range (minIntDigits settings) (maxIntDigits settings))
     (configured_range (minFracDigits settings) (maxFracDigits settings))
     settings (fst (generateDigitsTarget settings w)) = true).
Proof.
  split; [apply generated_literal_clamped|].
  intros (a & b & c & e & Ha & Hb & Hc & He & Hab & Hb50 & Hce & He50).
  rewrite <- (generated_literal_clamped settings w).
  apply literal_meets_ext; intro n.
  - rewrite Ha, Hb. now apply configured_is_clamped.
  - rewrite Hc, He. now apply configured_is_clamped.
Qed.
(** ** Worked scenarios *)

Transparent SINGLE_SYMBOLS COMBOS initEnabledMap Object_fromEntries filter.

Ltac by_computation :=
  vm_compute; first [reflexivity | discriminate | repeat split; reflexivity].

(** The scenario of the specification: target "=>", progress "=", key ">". *)
Lemma matching_key_advances_or_completes_witness :
  let s := fst (session [SelectMode combo; press "="] (world_of [])) in
  let s' := after (press ">") s (world_of []) in
  totalAttempts s' = totalAttempts s + 1 /\
  totalCorrect s' = totalCorrect s + 1 /\
  typed s' = "" /\ progress s' = "" /\ In (target s') (pool s).
Proof.
  intros s s'.
  destruct (matching_key_advances_or_completes s
              (mkKeyboardEvent ">" false false false) (world_of []))
    as [_ Hdone].
  - apply session_reachable. by_computation.
  - by_computation.
  - by_computation.
  - by_computation.
  - by_computation.
  - by_computation.
  - destruct Hdone as (Ha & Hc & _ & _ & _ & _ & _ & HIn & Ht & Hp & _);
      [by_computation|].
    exact (conj Ha (conj Hc (conj Ht (conj Hp HIn)))).
Defined.

(** The scenario of the specification: target "(", key "x". *)
Lemma mismatch_counts_miss_and_keeps_typed_witness :
  let s := fst (session [] (world_of [])) in
  let s' := after (press "x") s (world_of []) in
  target s = "(" /\
  totalAttempts s' = totalAttempts s + 1 /\
  totalMiss s' = totalMiss s + 1 /\
  progress s' = "" /\ typed s' = (typed s ++ "x")%string.
Proof.
  intros s s'. split; [by_computation|].
  destruct (mismatch_counts_miss_and_keeps_typed s
              (mkKeyboardEvent "x" false false false) (world_of []))
    as (Ha & Hm & _ & _ & _ & _ & _ & Hp & Ht & _); [by_computation ..|].
  exact (conj Ha (conj Hm (conj Hp Ht))).
Defined.

(** Numeric mode, target "100", progress "1", wrong key "9". *)
Lemma numeric_mismatch_leaves_buffers_witness :
  let s := fst (session [SelectMode digits; press "1"] (world_of [])) in
  let s' := after (press "9") s (world_of []) in
  target s = "100" /\ progress s = "1" /\
  totalAttempts s' = totalAttempts s + 1 /\
  totalMiss s' = totalMiss s + 1 /\
  progress s' = progress s /\ typed s' = typed s.
Proof.
  intros s s'. split; [by_computation|]. split; [by_computation|].
  destruct (numeric_mismatch_leaves_buffers s
              (mkKeyboardEvent "9" false false false) (world_of []))
    as (Ha & Hm & _ & _ & _ & _ & Hp & Ht & _); [by_computation ..|].
  exact (conj Ha (conj Hm (conj Hp Ht))).
Defined.

(** Numeric mode, target "100", progress "1", then Backspace. *)
Lemma backspace_only_in_numeric_mode_witness :
  let s := fst (session [SelectMode digits; press "1"] (world_of [])) in
  let s' := after (press "Backspace") s (world_of []) in
  totalBackspace s' = totalBackspace s + 1 /\
  typed s' = slice_0_m1 (typed s) /\ progress s' = slice_0_m1 (progress s).
Proof.
  intros s s'.
  destruct (backspace_only_in_numeric_mode s
              (mkKeyboardEvent "Backspace" false false false) (world_of []))
    as [Hnum _]; [by_computation ..|].
  destruct Hnum as (Hb & Ht & Hp & _); [by_computation|].
  exact (conj Hb (conj Ht Hp)).
Defined.

(** Combo mode, target "=>", progress "=": a proper prefix, and it stays a
    prefix after a wrong key. *)
Lemma progress_is_always_prefix_of_target_witness :
  let s := fst (session [SelectMode combo; press "="] (world_of [])) in
  String.prefix (progress s) (target s) = true /\
  String.prefix (progress (after (press "x") s (world_of [])))
                (target (after (press "x") s (world_of []))) = true.
Proof.
  intro s.
  destruct (progress_is_always_prefix_of_target s) as (Hp & _ & Hnext).
  - apply session_reachable. by_computation.
  - split; [exact Hp|apply Hnext].
Defined.

(** The default settings of the trainer: 3 to 7 integer digits. *)
Lemma generated_literal_meets_settings_witness :
  let settings :=
    mkDigitsSettings (of_Z 3) (of_Z 7) false false (of_Z 1) (of_Z 4) in
  literal_meets
    (configured_range (minIntDigits settings) (maxIntDigits settings))
    (configured_range (minFracDigits settings) (maxFracDigits settings))
    settings (fst (generateDigitsTarget settings (world_of []))) = true.
Proof.
  intro settings.
  apply (generated_literal_meets_settings settings (world_of [])).
  exists 3, 7, 1, 4. repeat split; first [reflexivity | lia].
Defined.

(** An edit with a NaN minimum, an oversized maximum, an infinite
    fractional minimum and a fractional maximum of 2.5. *)
Lemma stored_digits_settings_are_normalised_witness :
  let s := fst (session [SelectMode digits] (world_of [])) in
  let next :=
    mkDigitsSettings NaN (of_Z 70) true false (Infinity false)
                     (Fin (5 # 2)) in
  let d := digitsSettings (after (ChangeDigitsSettings next) s (world_of [])) in
  minIntDigits d = of_Z 1 /\ maxIntDigits d = of_Z 50 /\
  minFracDigits d = of_Z 1 /\ maxFracDigits d = of_Z 2.
Proof.
  intros s next d.
  destruct (stored_digits_settings_are_normalised s next (world_of []))
    as (a & b & c & e & Ha & Hb & Hc & He & _ & _ & _ & Hb' & _ & He' &
        Hnan & _ & Hinf & _).
  fold d in Ha, Hb, Hc, He.
  rewrite Ha, Hb, Hc, He, (Hnan eq_refl), (Hinf eq_refl), Hb', He'.
  repeat split.
Defined.

(** Single mode after three wrong keys and one right key. *)
Lemma ranked_view_lists_weakest_items_witness :
  let s := fst (session [press "x"; press "y"; press "("; press "z"]
                        (world_of [0; 4503599627370496])) in
  exists full : list RankedStat,
    ranked s = firstn 10 full /\
    Permutation full (map rank_entry (statsByItem s)) /\
    StronglySorted ranks_before full.
Proof.
  intro s.
  destruct (ranked_view_lists_weakest_items s)
    as (_ & (full & Hr & Hp & Hs & _) & _).
  - apply session_reachable. by_computation.
  - exists full. repeat split; assumption.
Defined.

Lemma attempts_are_correct_plus_miss_witness :
  let s := fst (session [press "x"; press "y"; press "("; press "z"]
                        (world_of [0; 4503599627370496])) in
  totalAttempts s = totalCorrect s + totalMiss s /\
  totalAttempts (after ClickReset s (world_of [])) = 0.
Proof.
  intro s.
  destruct (attempts_are_correct_plus_miss s) as (Ht & _ & _ & Hreset).
  - apply session_reachable. by_computation.
  - split; [exact Ht|]. apply (Hreset (world_of [])).
Defined.

(** Numeric mode, target "100", after the right key "1" and the wrong
    key "9". *)
Lemma numeric_typed_equals_progress_witness :
  let s := fst (session [SelectMode digits; press "1"; press "9"]
                        (world_of [])) in
  mode s = digits /\ typed s = progress s.
Proof.
  intro s.
  destruct (numeric_typed_equals_progress s) as (Hty & _).
  - apply session_reachable. by_computation.
  - assert (mode s = digits) as Hm by by_computation.
    split; [exact Hm|exact (Hty Hm)].
Defined.

(** The statistics scenario of the specification: 4 attempts, 1 correct,
    500 ms accumulated. *)
Example ranked_entry_scenario :
  let r := rank_entry ("(", mkStat 4 1 500) in
  (acc r == 25)%Q /\ (exists q, avg r = Some q /\ (q == 500)%Q) /\
  avg (rank_entry ("(", mkStat 3 0 0)) = None.
Proof.
  cbn. repeat split.
  exists (500 / 1)%Q. split; reflexivity.
Qed.
(** * Further properties of the code *)

(** ** domain/random.ts *)




(** [pickRandom] on a non-empty list returns one of its elements, taken at
    an index below the length. *)
Theorem pickRandom_returns_member (l : list string) (w : World) :
  l <> [] ->
  In (fst (pickRandom l w)) l /\
  exists i, (i < List.length l)%nat /\ fst (pickRandom l w) = nth i l "".
Proof.
  intro Hl. split; [now apply pickRandom_In|].
  unfold pickRandom, bind, ret.
  pose proof (Math_random_range w) as [H0 H1].
  destruct (Math_random w) as [r w1]. cbn [fst] in *.
  assert (0 < Z.of_nat (List.length l)) as Hn
    by (destruct l; [congruence|simpl; lia]).
  pose proof (floor_scale r _ H0 H1 Hn) as Hf.
  eexists. split; [|reflexivity]. lia.
Qed.

(** [randomInt] returns a whole number between the smaller and the larger of
    its two arguments, whichever order they come in, and the order makes no
    difference to the draw. *)
Theorem randomInt_between_either_order (min max : Z) (w : World) :
  Z.min min max <= fst (randomInt min max w) <= Z.max min max /\
  randomInt min max w = randomInt max min w /\
  (min = max -> fst (randomInt min max w) = min).
Proof.
  pose proof (randomInt_range min max w) as H.
  split; [exact H|]. split.
  - unfold randomInt. now rewrite (Z.min_comm min max), (Z.max_comm min max).
  - intros ->. rewrite Z.min_id, Z.max_id in H. lia.
Qed.


(** ** hooks/useTrainer.ts: events the listener ignores *)

Opaque SINGLE_SYMBOLS COMBOS initEnabledMap Object_fromEntries filter.

Lemma ignored_key_step (s : Trainer) (e : KeyboardEvent) (w : World) :
  isRunning s = false \/ target s = "" \/
  metaKey e || ctrlKey e || altKey e = true ->
  dispatch (KeyDown e) s w = (s, w).
Proof.
  intro H. unfold dispatch, onKeyDown.
  destruct (isRunning s); cbn [negb]; [|reflexivity].
  destruct (falsy (target s)) eqn:Ef; [reflexivity|].
  destruct (metaKey e || ctrlKey e || altKey e); [reflexivity|].
  destruct H as [H|[H|H]]; try discriminate H.
  rewrite H in Ef. discriminate Ef.
Qed.

(** While paused, while there is no target, or while Meta, Ctrl or Alt is
    held, a key event of any kind (Backspace included, in every mode) leaves
    the whole state as it is. *)
Theorem gated_key_events_change_nothing
    (s : Trainer) (e : KeyboardEvent) (w : World) :
  isRunning s = false \/ target s = "" \/
  metaKey e || ctrlKey e || altKey e = true ->
  after (KeyDown e) s w = s.
Proof.
  intro H. unfold after. now rewrite ignored_key_step.
Qed.

Lemma normalizeKey_not_single (k : string) :
  String.length k <> 1%nat ->
  falsy (normalizeKey k) = true \/
  (String.length (normalizeKey k) =? 1)%nat = false.
Proof.
  intro H. unfold normalizeKey.
  destruct (String.eqb k "Enter" || String.eqb k "Tab" ||
            String.eqb k "Escape").
  - right. now apply Nat.eqb_neq.
  - destruct (String.eqb k "Dead"); [now left|].
    right. now apply Nat.eqb_neq.
Qed.

(** A key whose identifier is not exactly one character (Enter, Tab, Escape,
    Dead, Shift, the arrows, ...) leaves the whole state as it is; the one
    exception is Backspace in numeric mode. *)
Theorem named_keys_change_nothing
    (s : Trainer) (e : KeyboardEvent) (w : World) :
  String.length (key e) <> 1%nat ->
  (mode s = digits -> key e <> "Backspace") ->
  after (KeyDown e) s w = s.
Proof.
  intros Hlen Hback. unfold after, dispatch, onKeyDown.
  destruct (negb (isRunning s)); [reflexivity|].
  destruct (falsy (target s)); [reflexivity|].
  destruct (metaKey e || ctrlKey e || altKey e); [reflexivity|].
  destruct (normalizeKey_not_single (key e) Hlen) as [Hf|Hl].
  - rewrite Hf.
    destruct (Mode_eqb (mode s) digits) eqn:Em; [|reflexivity].
    apply Mode_eqb_eq in Em. apply Hback, String.eqb_neq in Em.
    now rewrite Em.
  - rewrite Hl. cbn [negb].
    destruct (falsy (normalizeKey (key e))).
    + destruct (Mode_eqb (mode s) digits) eqn:Em; [|reflexivity].
      apply Mode_eqb_eq in Em. apply Hback, String.eqb_neq in Em.
      now rewrite Em.
    + destruct (Mode_eqb (mode s) digits) eqn:Em; [|reflexivity].
      apply Mode_eqb_eq in Em. apply Hback, String.eqb_neq in Em.
      now rewrite Em.
Qed.

(** No key event changes the mode, the running flag, the enabled maps or the
    numeric-generation settings. *)
Theorem key_events_keep_configuration
    (s : Trainer) (e : KeyboardEvent) (w : World) :
  configuration (after (KeyDown e) s w) = configuration s.
Proof.
  unfold configuration. step_cases; fields; reflexivity.
Qed.



(** ** hooks/useTrainer.ts: a matching key in numeric mode *)

Lemma numeric_advance_step (s : Trainer) (e : KeyboardEvent) (w : World) :
  mode s = digits -> isRunning s = true -> target s <> "" -> printable e ->
  key e = char_at (target s) (String.length (progress s)) ->
  (progress s ++ key e)%string <> target s ->
  dispatch (KeyDown e) s w =
  (setProgress (const (progress s ++ key e)%string)
     (setTyped (const (progress s ++ key e)%string) s), w).
Proof.
  intros Hmode Hrun Htgt Hkey Hexp Hcmp.
  accept_key Hrun Htgt Hkey.
  rewrite Hmode. cbn [Mode_eqb].
  apply String.eqb_neq in Hcmp. apply String.eqb_eq in Hexp.
  now rewrite Hexp, Hcmp.
Qed.

Lemma numeric_completion_step (s : Trainer) (e : KeyboardEvent) (w : World) :
  mode s = digits -> isRunning s = true -> target s <> "" -> printable e ->
  key e = char_at (target s) (String.length (progress s)) ->
  (progress s ++ key e)%string = target s ->
  after (KeyDown e) s w =
  let elapsed := (clock w (reads w) - shownAt s)%Q in
  let drawn := generateDigitsTarget (digitsSettings s) (snd (nowMs w)) in
  setShownAt (fst (nowMs (snd drawn)))
    (setProgress (const "")
       (setTyped (const "")
          (setTarget (const (fst drawn))
             (bumpStat (target s) true (Some elapsed)
                (setTotalCorrect (fun v => v + 1)
                   (setTotalAttempts (fun v => v + 1)
                      (setLastTimeMs (const (Some elapsed))
                         (setProgress (const (target s))
                            (setTyped (const (target s)) s))))))))).
Proof.
  intros Hmode Hrun Htgt Hkey Hexp Hcmp.
  accept_key Hrun Htgt Hkey.
  rewrite Hmode. cbn [Mode_eqb].
  apply String.eqb_eq in Hexp. rewrite Hexp, Hcmp, String.eqb_refl.
  unfold nextQuestion, resetQuestion. rewrite Hmode. cbn [Mode_eqb].
  unfold bind, ret, nowMs. cbn [fst snd].
  destruct (generateDigitsTarget _ _) as [t w1]. reflexivity.
Qed.

(** In numeric mode, while running with a non-empty target, a printable key
    equal to the expected character target[progress.length] matches.  Short
    of the whole target, typed and progress both become progress+key and
    nothing is counted.  On the whole target the attempt is a completion:
    total attempts and total correct go up by one, the elapsed time is
    recorded, the statistic of the target is updated as a success with that
    duration, and a new literal is generated from the stored settings, with
    typed and progress cleared and the shown-time read afresh. *)
Theorem numeric_match_advances_or_completes
    (s : Trainer) (e : KeyboardEvent) (w : World) :
  mode s = digits -> isRunning s = true -> target s <> "" -> printable e ->
  key e = char_at (target s) (String.length (progress s)) ->
  let s' := after (KeyDown e) s w in
  let elapsed := (clock w (reads w) - shownAt s)%Q in
  let before := stat_of (target s) (statsByItem s) in
  let drawn := generateDigitsTarget (digitsSettings s) (snd (nowMs w)) in
  ((progress s ++ key e)%string <> target s ->
     progress s' = (progress s ++ key e)%string /\
     typed s' = (progress s ++ key e)%string /\
     target s' = target s /\
     totalAttempts s' = totalAttempts s /\
     totalCorrect s' = totalCorrect s /\
     totalMiss s' = totalMiss s /\
     statsByItem s' = statsByItem s /\
     shownAt s' = shownAt s) /\
  ((progress s ++ key e)%string = target s ->
     totalAttempts s' = totalAttempts s + 1 /\
     totalCorrect s' = totalCorrect s + 1 /\
     totalMiss s' = totalMiss s /\
     lastTimeMs s' = Some elapsed /\
     stat_of (target s) (statsByItem s') =
       mkStat (attempts before + 1) (correct before + 1)
              (totalMs before + elapsed)%Q /\
     (forall other, other <> target s ->
        obj_get other (statsByItem s') = obj_get other (statsByItem s)) /\
     target s' = fst drawn /\
     typed s' = "" /\
     progress s' = "" /\
     shownAt s' = fst (nowMs (snd drawn))).
Proof.
  intros Hmode Hrun Htgt Hkey Hexp. split; intro Hcmp.
  - unfold after.
    rewrite (numeric_advance_step s e w Hmode Hrun Htgt Hkey Hexp Hcmp).
    cbn [fst]. fields. repeat split; reflexivity.
  - rewrite (numeric_completion_step s e w Hmode Hrun Htgt Hkey Hexp Hcmp).
    cbv zeta. unfold bumpStat. fields. rewrite bump_target.
    repeat split; try reflexivity.
    intros other Hother. now apply bump_other.
Qed.

(** ** hooks/useTrainer.ts: what the target always is *)

(** Turns each recorded draw from a list into the membership it implies. *)
Ltac note_draws :=
  repeat match goal with
         | H : (List.length ?l =? 0)%nat = false,
           D : pickRandom ?l ?w = (?t, _) |- _ =>
             let HIn := fresh "HIn" in
             pose proof (pickRandom_In l w (length_nonzero l H)) as HIn;
             rewrite D in HIn; cbn [fst] in HIn; clear D
         end.

Lemma step_target_in_pool (s : Trainer) (a : Action) (w : World) :
  offered s a = true -> target_in_pool s -> target_in_pool (after a s w).
Proof.
  intros Ho H.
  destruct a; step_cases; note_draws;
    unfold target_in_pool, pool, basePool, enabledMap, offered in *;
    fields; try assumption.
  all: try match goal with
           | H : (List.length _ =? 0)%nat = true |- _ =>
               apply length_zero in H
           end.
  all: try (destruct nextMode); destruct (mode s) eqn:Em.
  all: cbn [Mode_eqb negb andb] in *.
  all: try absurd_bool.
  all: intros Hm.
  all: try absurd_bool.
  all: try (exact (H Hm)).
  all: try (right; assumption).
  all: try (left; split; [reflexivity|assumption]).
Qed.

Lemma catalogs_fully_enabled :
  filter (enabled_in (initEnabledMap SINGLE_SYMBOLS)) SINGLE_SYMBOLS
    = SINGLE_SYMBOLS /\
  filter (enabled_in (initEnabledMap COMBOS)) COMBOS = COMBOS.
Proof. split; vm_compute; reflexivity. Qed.

Lemma catalogs_hold_no_empty_item (t : string) :
  In t SINGLE_SYMBOLS \/ In t COMBOS -> t <> "".
Proof.
  intros H ->.
  assert (existsb (String.eqb "") (SINGLE_SYMBOLS ++ COMBOS) = false) as E
    by (vm_compute; reflexivity).
  assert (existsb (String.eqb "") (SINGLE_SYMBOLS ++ COMBOS) = true) as E'.
  { apply existsb_exists. exists "". split; [|reflexivity].
    apply in_or_app. exact H. }
  rewrite E in E'. discriminate E'.
Qed.

Lemma init_target_in_pool (w : World) :
  target_in_pool (fst (useTrainer_init w)).
Proof.
  unfold useTrainer_init, bind, ret.
  pose proof (pickRandom_In SINGLE_SYMBOLS w) as HIn.
  destruct (pickRandom SINGLE_SYMBOLS w) as [t w1].
  destruct (nowMs w1) as [now w2]. cbn [fst] in *.
  intros _. right. unfold pool, basePool, enabledMap. fields.
  cbn [Mode_eqb]. rewrite (proj1 catalogs_fully_enabled).
  apply HIn. vm_compute. discriminate.
Qed.

Lemma reachable_target_in_pool (s : Trainer) :
  reachable s -> target_in_pool s.
Proof.
  induction 1 as [w|s a w _ IH Ho].
  - apply init_target_in_pool.
  - now apply step_target_in_pool.
Qed.

(** In single/combo mode, in every reachable state, the target is one of
    the enabled items of the catalog of the mode, and there is no target
    exactly when no item is enabled. *)
Theorem target_is_an_enabled_item (s : Trainer) :
  reachable s -> mode s <> digits ->
  (target s = "" <-> pool s = []) /\
  (target s <> "" ->
   In (target s) (basePool s) /\
   enabled_in (enabledMap s) (target s) = true).
Proof.
  intros Hreach Hmode.
  pose proof (reachable_target_in_pool s Hreach Hmode) as H.
  assert (forall t, In t (pool s) -> t <> "") as Hne.
  { intros t Ht. unfold pool in Ht. apply filter_In in Ht.
    destruct Ht as [Ht _]. apply catalogs_hold_no_empty_item.
    unfold basePool in Ht. destruct (mode s); cbn [Mode_eqb] in Ht; auto.
    destruct Ht. }
  split; [split|].
  - intro Ht. destruct H as [[_ Hp]|HIn]; [exact Hp|].
    apply Hne in HIn. contradiction.
  - intro Hp. destruct H as [[Ht _]|HIn]; [exact Ht|].
    rewrite Hp in HIn. destruct HIn.
  - intro Ht. destruct H as [[Ht' _]|HIn]; [contradiction|].
    unfold pool in HIn. now apply filter_In in HIn.
Qed.

Lemma generated_literal_configured (settings : DigitsSettings) (w : World) :
  settings_wf settings ->
  literal_meets
    (configured_range (minIntDigits settings) (maxIntDigits settings))
    (configured_range (minFracDigits settings) (maxFracDigits settings))
    settings (fst (generateDigitsTarget settings w)) = true.
Proof.
  intros (a & b & c & e & Ha & Hb & Hc & He & Hab & Hb50 & Hce & He50).
  rewrite <- (generated_literal_clamped settings w).
  apply literal_meets_ext; intro n.
  - rewrite Ha, Hb. now apply configured_is_clamped.
  - rewrite Hc, He. now apply configured_is_clamped.
Qed.

(** Turns each recorded generation into the property of its literal. *)
Ltac note_literals Hwf :=
  repeat match goal with
         | D : generateDigitsTarget ?st ?w = (?t, _) |- _ =>
             let Hlit := fresh "Hlit" in
             first [ pose proof (generated_literal_configured st w Hwf)
                       as Hlit
                   | pose proof (generated_literal_configured st w
                                   (normalize_wf _)) as Hlit ];
             rewrite D in Hlit; cbn [fst] in Hlit; clear D
         end.

Lemma step_target_meets_settings (s : Trainer) (a : Action) (w : World) :
  settings_wf (digitsSettings s) ->
  target_meets_settings s -> target_meets_settings (after a s w).
Proof.
  intros Hwf H.
  destruct a; step_cases; note_literals Hwf;
    unfold target_meets_settings in *; fields; try assumption.
  all: try (intro Hm; rewrite Hm in *; cbn [Mode_eqb] in *; absurd_bool).
  all: try (intros _; assumption).
Qed.

Lemma reachable_target_meets_settings (s : Trainer) :
  reachable s -> target_meets_settings s.
Proof.
  induction 1 as [w|s a w Hs IH Ho].
  - unfold useTrainer_init, bind, ret.
    destruct (pickRandom SINGLE_SYMBOLS w) as [t w1].
    destruct (nowMs w1) as [now w2]. cbn [fst].
    intro Hm. discriminate Hm.
  - apply step_target_meets_settings; [|exact IH].
    apply (inv_settings s (reachable_invariant s Hs)).
Qed.

(** In numeric mode, in every reachable state, the target is a literal that
    meets the settings now stored (digit counts within the configured
    ranges, no leading zero without a point, sign and point only when
    enabled); in particular there is always a target to type. *)
Theorem numeric_target_meets_stored_settings (s : Trainer) :
  reachable s -> mode s = digits ->
  literal_meets
    (configured_range (minIntDigits (digitsSettings s))
                      (maxIntDigits (digitsSettings s)))
    (configured_range (minFracDigits (digitsSettings s))
                      (maxFracDigits (digitsSettings s)))
    (digitsSettings s) (target s) = true /\
  target s <> "".
Proof.
  intros Hreach Hmode.
  pose proof (reachable_target_meets_settings s Hreach Hmode) as H.
  split; [exact H|]. intro Ht. rewrite Ht in H. discriminate H.
Qed.

(** ** hooks/useTrainer.ts: statistics against the totals *)

Section SumOver.
Variable f : Stat -> Z.

Lemma sum_over_app (o o' : Obj Stat) :
  sum_over f (o ++ o') = sum_over f o + sum_over f o'.
Proof.
  unfold sum_over.
  induction o as [|[k v] o IH]; cbn [app fold_right snd]; [reflexivity|].
  rewrite IH. lia.
Qed.

Lemma sum_over_replace (k : string) (v old : Stat) (o : Obj Stat) :
  obj_get k o = Some old ->
  sum_over f (obj_replace k v o) = sum_over f o - f old + f v.
Proof.
  unfold sum_over.
  induction o as [|[k' v'] o IH];
    cbn [obj_get obj_replace fold_right snd]; [discriminate|].
  destruct (String.eqb k k').
  - intros [= ->]. cbn [fold_right snd]. lia.
  - intro H. cbn [fold_right snd]. rewrite (IH H). lia.
Qed.

Lemma sum_over_insert (n : N) (k : string) (v : Stat) (o : Obj Stat) :
  sum_over f (obj_insert_index n k v o) = sum_over f o + f v.
Proof.
  unfold sum_over.
  induction o as [|[k' v'] o IH];
    cbn [obj_insert_index fold_right snd]; [lia|].
  destruct (array_index k') as [n'|]; [|cbn [fold_right snd]; lia].
  destruct (n' <? n)%N; cbn [fold_right snd]; [|lia].
  rewrite IH. lia.
Qed.

Lemma sum_over_set (k : string) (v : Stat) (o : Obj Stat) :
  sum_over f (obj_set k v o) =
  sum_over f o + f v -
  match obj_get k o with Some old => f old | None => 0 end.
Proof.
  unfold obj_set. destruct (obj_get k o) as [old|] eqn:E.
  - rewrite (sum_over_replace k v old o E). lia.
  - destruct (array_index k).
    + rewrite sum_over_insert. lia.
    + rewrite sum_over_app. unfold sum_over. cbn [fold_right snd]. lia.
Qed.
End SumOver.

Lemma sum_attempts_bump (item : string) (isCorrect : bool)
    (elapsedMs : option Q) (prev : Obj Stat) :
  sum_over attempts (bump item isCorrect elapsedMs prev) =
  sum_over attempts prev + 1.
Proof.
  unfold bump. rewrite sum_over_set.
  destruct (obj_get item prev); cbn; lia.
Qed.

Lemma sum_correct_bump (item : string) (isCorrect : bool)
    (elapsedMs : option Q) (prev : Obj Stat) :
  sum_over correct (bump item isCorrect elapsedMs prev) =
  sum_over correct prev + (if isCorrect then 1 else 0).
Proof.
  unfold bump. rewrite sum_over_set.
  destruct (obj_get item prev); cbn; lia.
Qed.

Lemma step_sums (s : Trainer) (a : Action) (w : World) :
  sum_over attempts (statsByItem s) = totalAttempts s /\
  sum_over correct (statsByItem s) = totalCorrect s ->
  sum_over attempts (statsByItem (after a s w)) = totalAttempts (after a s w)
  /\ sum_over correct (statsByItem (after a s w)) = totalCorrect (after a s w).
Proof.
  intros [Ha Hc].
  destruct a; step_cases; fields;
    rewrite ?sum_attempts_bump, ?sum_correct_bump;
    first [ split; [exact Ha|exact Hc]
          | split; reflexivity
          | split; lia ].
Qed.

Lemma reachable_sums (s : Trainer) :
  reachable s ->
  sum_over attempts (statsByItem s) = totalAttempts s /\
  sum_over correct (statsByItem s) = totalCorrect s.
Proof.
  induction 1 as [w|s a w Hs IH Ho].
  - unfold useTrainer_init, bind, ret.
    destruct (pickRandom SINGLE_SYMBOLS w) as [t w1].
    destruct (nowMs w1) as [now w2]. cbn. split; reflexivity.
  - now apply step_sums.
Qed.

Lemma sum_over_difference (stats : Obj Stat) :
  sum_over (fun st => attempts st - correct st) stats =
  sum_over attempts stats - sum_over correct stats.
Proof.
  unfold sum_over.
  induction stats as [|[k v] o IH]; cbn [fold_right snd]; [reflexivity|].
  rewrite IH. lia.
Qed.

(** In every reachable state the per-item statistics add up to the totals:
    the attempts of all items sum to total attempts, their correct counts to
    total correct, and so their failures to total miss. *)
Theorem statistics_add_up_to_totals (s : Trainer) :
  reachable s ->
  sum_over attempts (statsByItem s) = totalAttempts s /\
  sum_over correct (statsByItem s) = totalCorrect s /\
  sum_over (fun st => attempts st - correct st) (statsByItem s) = totalMiss s.
Proof.
  intro Hreach.
  destruct (reachable_sums s Hreach) as [Ha Hc].
  pose proof (inv_totals s (reachable_invariant s Hreach)) as Ht.
  split; [exact Ha|]. split; [exact Hc|].
  rewrite sum_over_difference. lia.
Qed.

(** ** hooks/useTrainer.ts: full reset and mode change *)

(** A full reset zeroes the four counters, forgets the last time and every
    statistic (so the ranked view is empty and the accuracy 0), clears both
    buffers, and leaves the mode, the running flag, the enabled maps and the
    numeric-generation settings alone. *)
Theorem full_reset_clears_scores_only (s : Trainer) (w : World) :
  let s' := after ClickReset s w in
  totalAttempts s' = 0 /\ totalCorrect s' = 0 /\ totalMiss s' = 0 /\
  totalBackspace s' = 0 /\ lastTimeMs s' = None /\
  statsByItem s' = [] /\ ranked s' = [] /\ accuracy s' = 0%Q /\
  typed s' = "" /\ progress s' = "" /\
  configuration s' = configuration s.
Proof.
  unfold ranked, accuracy, configuration.
  step_cases; fields; repeat split; reflexivity.
Qed.

(** A mode change switches the mode, clears both buffers and draws a target
    for the new mode (a generated literal in numeric mode, an item of the
    new pool otherwise, none when that pool is empty), and keeps all
    counters, the last time, the statistics, the running flag, the enabled
    maps and the settings. *)
Theorem mode_change_keeps_scores (s : Trainer) (nextMode : Mode) (w : World) :
  let s' := after (SelectMode nextMode) s w in
  mode s' = nextMode /\
  typed s' = "" /\ progress s' = "" /\
  totalAttempts s' = totalAttempts s /\ totalCorrect s' = totalCorrect s /\
  totalMiss s' = totalMiss s /\ totalBackspace s' = totalBackspace s /\
  lastTimeMs s' = lastTimeMs s /\ statsByItem s' = statsByItem s /\
  isRunning s' = isRunning s /\ enabledSingle s' = enabledSingle s /\
  enabledCombo s' = enabledCombo s /\ digitsSettings s' = digitsSettings s /\
  (nextMode = digits ->
   target s' = fst (generateDigitsTarget (digitsSettings s) w)) /\
  (nextMode <> digits ->
   (target s' = "" /\ pool s' = []) \/ In (target s') (pool s')).
Proof.
  step_cases; note_draws; unfold pool, basePool, enabledMap; fields.
  all: repeat match goal with |- _ /\ _ => split end; try reflexivity.
  all: try match goal with
           | H : (List.length _ =? 0)%nat = true |- _ =>
               apply length_zero in H
           end.
  all: destruct nextMode; cbn [Mode_eqb] in *; try absurd_bool.
  all: try (intros Hm; discriminate Hm).
  all: try (intro Hm; now elim Hm).
  all: intros _.
  all: try (left; split; [reflexivity|assumption]).
  all: try (right; assumption).
Qed.

(** ** hooks/useTrainer.ts: enabling and disabling items *)

Transparent Object_fromEntries initEnabledMap.

Lemma enabled_in_set (item x : string) (enabled : bool) (m : Obj bool) :
  enabled_in (obj_set item enabled m) x =
  if String.eqb x item then enabled else enabled_in m x.
Proof.
  unfold enabled_in. destruct (String.eqb_spec x item) as [->|Hne].
  - rewrite obj_get_set_same. now destruct enabled.
  - now rewrite obj_get_set_other.
Qed.

Lemma fromEntries_get (b : bool) (l : list string) (x : string) :
  forall acc : Obj bool,
    obj_get x (fold_left (fun o kv => obj_set (fst kv) (snd kv) o)
                         (map (fun i => (i, b)) l) acc) =
    if existsb (String.eqb x) l then Some b else obj_get x acc.
Proof.
  induction l as [|i l IH]; intro acc; [reflexivity|].
  cbn [map fold_left existsb fst snd]. rewrite IH.
  destruct (existsb (String.eqb x) l); [now rewrite orb_true_r|].
  rewrite orb_false_r. destruct (String.eqb_spec x i) as [->|Hne].
  - apply obj_get_set_same.
  - now apply obj_get_set_other.
Qed.

Lemma enabled_in_fromEntries (b : bool) (l : list string) (x : string) :
  In x l ->
  enabled_in (Object_fromEntries (map (fun i => (i, b)) l)) x = b.
Proof.
  intro HIn. unfold enabled_in, Object_fromEntries.
  rewrite fromEntries_get.
  assert (existsb (String.eqb x) l = true) as ->.
  { apply existsb_exists. exists x. split; [assumption|].
    apply String.eqb_refl. }
  now destruct b.
Qed.

Lemma filter_const (p : string -> bool) (b : bool) (l : list string) :
  (forall x, In x l -> p x = b) ->
  List.filter p l = if b then l else [].
Proof.
  induction l as [|i l IH]; intro H; [now destruct b|].
  cbn [List.filter]. rewrite (H i (or_introl eq_refl)).
  rewrite IH by (intros x Hx; apply H; now right).
  now destruct b.
Qed.

Opaque Object_fromEntries initEnabledMap.

Lemma filter_fromEntries (b : bool) (l : list string) :
  List.filter (enabled_in (Object_fromEntries (map (fun i => (i, b)) l))) l
  = if b then l else [].
Proof.
  apply filter_const. intros x Hx. now apply enabled_in_fromEntries.
Qed.

Lemma disable_all_effect (s : Trainer) (w : World) :
  mode s <> digits ->
  let off := after ClickDisableAll s w in
  pool off = [] /\ target off = "" /\ mode off = mode s /\
  totalAttempts off = totalAttempts s /\ totalCorrect off = totalCorrect s /\
  totalMiss off = totalMiss s /\ statsByItem off = statsByItem s.
Proof.
  intro Hmode. step_cases; unfold pool, basePool, enabledMap in *; fields.
  all: destruct (mode s) eqn:Em; cbn [Mode_eqb] in *; try absurd_bool.
  all: rewrite ?(filter_fromEntries false) in *.
  all: try match goal with
           | H : (List.length [] =? 0)%nat = false |- _ => discriminate H
           end.
  all: repeat split; reflexivity.
Qed.

Lemma enable_all_effect (s : Trainer) (w : World) :
  mode s <> digits ->
  let on := after ClickEnableAll s w in
  pool on = basePool s /\ In (target on) (basePool s) /\ mode on = mode s /\
  totalAttempts on = totalAttempts s /\ totalCorrect on = totalCorrect s /\
  totalMiss on = totalMiss s /\ statsByItem on = statsByItem s.
Proof.
  intro Hmode. step_cases; note_draws;
    unfold pool, basePool, enabledMap in *; fields.
  all: destruct (mode s) eqn:Em; cbn [Mode_eqb] in *; try absurd_bool.
  all: rewrite ?(proj1 catalogs_fully_enabled),
               ?(proj2 catalogs_fully_enabled) in *.
  all: try match goal with
           | H : (List.length _ =? 0)%nat = true |- _ =>
               vm_compute in H; discriminate H
           end.
  all: repeat split; try reflexivity; assumption.
Qed.

(** "Disable all" empties the pool of the current catalog and leaves no
    target; "enable all" after it (or at any time) makes the pool the whole
    catalog again, in catalog order, and draws a target from it.  Neither
    touches the counters or the statistics. *)
Theorem disable_all_then_enable_all_restores_pool
    (s : Trainer) (w w' : World) :
  mode s <> digits ->
  let off := after ClickDisableAll s w in
  let on := after ClickEnableAll off w' in
  pool off = [] /\ target off = "" /\
  pool on = basePool s /\ In (target on) (basePool s) /\
  pool (after ClickEnableAll s w) = basePool s /\
  mode on = mode s /\
  totalAttempts on = totalAttempts s /\ totalCorrect on = totalCorrect s /\
  totalMiss on = totalMiss s /\ statsByItem on = statsByItem s.
Proof.
  intros Hmode off on.
  destruct (disable_all_effect s w Hmode)
    as (Hp & Ht & Hm & Ha & Hc & Hmi & Hst).
  fold off in Hp, Ht, Hm, Ha, Hc, Hmi, Hst.
  assert (mode off <> digits) as Hmode' by now rewrite Hm.
  destruct (enable_all_effect off w' Hmode')
    as (Hp' & Ht' & Hm' & Ha' & Hc' & Hmi' & Hst').
  fold on in Hp', Ht', Hm', Ha', Hc', Hmi', Hst'.
  assert (basePool off = basePool s) as Hb
    by (unfold basePool; now rewrite Hm).
  rewrite Hb in Hp', Ht'.
  destruct (enable_all_effect s w Hmode) as (Hp'' & _).
  repeat split; congruence.
Qed.

(** Ticking or unticking one item changes the pool by that item only: after
    it the pool holds the catalog items that are the toggled item and were
    just enabled, or are another item and were enabled before.  Both buffers
    are cleared, the mode and the scores are kept. *)
Theorem toggling_an_item_changes_only_it
    (s : Trainer) (item : string) (enabled : bool) (w : World) :
  mode s <> digits ->
  let s' := after (ToggleItem item enabled) s w in
  (forall x,
     In x (pool s') <->
     In x (basePool s) /\
     (if String.eqb x item then enabled = true
      else enabled_in (enabledMap s) x = true)) /\
  mode s' = mode s /\ typed s' = "" /\ progress s' = "" /\
  totalAttempts s' = totalAttempts s /\ totalCorrect s' = totalCorrect s /\
  totalMiss s' = totalMiss s /\ statsByItem s' = statsByItem s.
Proof.
  intro Hmode.
  assert (forall x l m,
            In x (List.filter (enabled_in (obj_set item enabled m)) l) <->
            In x l /\
            (if String.eqb x item then enabled = true
             else enabled_in m x = true)) as Hf.
  { intros x l m. rewrite filter_In, enabled_in_set.
    destruct (String.eqb x item); reflexivity. }
  step_cases; unfold pool, basePool, enabledMap in *; fields.
  all: destruct (mode s) eqn:Em; cbn [Mode_eqb] in *; try absurd_bool.
  all: split; [intro x; apply Hf|repeat split; reflexivity].
Qed.

(** ** hooks/useTrainer.ts: Backspace after a matched digit *)

(** In numeric mode a matched, non-completing key followed by Backspace
    brings typed and progress back to what they were; only the backspace
    counter has moved. *)
Theorem backspace_undoes_a_matched_digit
    (s : Trainer) (e back : KeyboardEvent) (w w' : World) :
  reachable s ->
  mode s = digits -> isRunning s = true -> target s <> "" -> printable e ->
  key e = char_at (target s) (String.length (progress s)) ->
  (progress s ++ key e)%string <> target s ->
  key back = "Backspace" ->
  metaKey back = false -> ctrlKey back = false -> altKey back = false ->
  let s' := after (KeyDown back) (after (KeyDown e) s w) w' in
  progress s' = progress s /\ typed s' = typed s /\
  target s' = target s /\
  totalBackspace s' = totalBackspace s + 1 /\
  totalAttempts s' = totalAttempts s /\ totalCorrect s' = totalCorrect s /\
  totalMiss s' = totalMiss s /\ statsByItem s' = statsByItem s.
Proof.
  intros Hreach Hmode Hrun Htgt Hkey Hexp Hcmp Hb Hmeta Hctrl Halt.
  pose proof (inv_typed s (reachable_invariant s Hreach) Hmode) as Hty.
  unfold after at 2.
  rewrite (numeric_advance_step s e w Hmode Hrun Htgt Hkey Hexp Hcmp).
  cbn [fst].
  rewrite numeric_backspace_step; fields; try assumption.
  destruct Hkey as (_ & _ & _ & Hlen).
  destruct (length_one (key e) Hlen) as [ch Hch].
  rewrite Hch, slice_snoc, Hty. repeat split; reflexivity.
Qed.

(** ** hooks/useTrainer.ts: further invariants *)

Lemma append_assoc (a b c : string) :
  ((a ++ b) ++ c)%string = (a ++ b ++ c)%string.
Proof. induction a as [|ch a IH]; cbn; [reflexivity|]. now rewrite IH. Qed.

Lemma step_typed_ends (s : Trainer) (a : Action) (w : World) :
  typed_tracks_progress s ->
  typed_ends_with_progress s -> typed_ends_with_progress (after a s w).
Proof.
  intros Hty [before H].
  destruct a; step_cases; unfold typed_ends_with_progress; fields;
    try (exists before; assumption); try (exists ""; reflexivity).
  - exists "". cbn [String.append].
    apply Mode_eqb_eq in Heqb2. now rewrite (Hty Heqb2).
  - exists before. rewrite H. apply append_assoc.
  - exists before. rewrite H. apply append_assoc.
  - exists (typed s ++ normalizeKey (key e))%string.
    symmetry. apply append_empty_r.
Qed.

Lemma reachable_typed_ends (s : Trainer) :
  reachable s -> typed_ends_with_progress s.
Proof.
  induction 1 as [w|s a w Hs IH Ho].
  - unfold useTrainer_init, bind, ret.
    destruct (pickRandom SINGLE_SYMBOLS w) as [t w1].
    destruct (nowMs w1) as [now w2]. exists "". reflexivity.
  - apply step_typed_ends; [|exact IH].
    apply (inv_typed s (reachable_invariant s Hs)).
Qed.

(** In every reachable state, in every mode, the typed buffer ends with the
    progress buffer: what is shown as typed is some already failed input
    followed by the prefix matched so far. *)
Theorem typed_buffer_ends_with_progress (s : Trainer) :
  reachable s ->
  exists before, typed s = (before ++ progress s)%string /\
                 (mode s = digits -> before = "").
Proof.
  intro Hreach.
  destruct (reachable_typed_ends s Hreach) as [before H].
  pose proof (inv_typed s (reachable_invariant s Hreach)) as Hty.
  destruct (mode s) eqn:Em.
  - exists before. split; [exact H|discriminate].
  - exists before. split; [exact H|discriminate].
  - exists "". split; [now apply Hty|reflexivity].
Qed.

Lemma step_scores (s : Trainer) (a : Action) (w : World) :
  scores_consistent s -> scores_consistent (after a s w).
Proof.
  intros (Ha & Hc & Hm & Hb & Hl).
  destruct a; step_cases; unfold scores_consistent; fields.
  all: repeat match goal with |- _ /\ _ => split end; try lia;
    try exact Hl.
  all: try (split; reflexivity).
  all: split; [intro Hn; discriminate Hn|intro Hz; exfalso; lia].
Qed.

Lemma reachable_scores (s : Trainer) : reachable s -> scores_consistent s.
Proof.
  induction 1 as [w|s a w Hs IH Ho].
  - unfold useTrainer_init, bind, ret.
    destruct (pickRandom SINGLE_SYMBOLS w) as [t w1].
    destruct (nowMs w1) as [now w2]. unfold scores_consistent. cbn.
    repeat split; lia.
  - now apply step_scores.
Qed.

(** In every reachable state the four counters are non-negative and a last
    completion time is on record exactly when total correct is not 0. *)
Theorem last_time_recorded_iff_some_correct (s : Trainer) :
  reachable s ->
  0 <= totalAttempts s /\ 0 <= totalCorrect s /\ 0 <= totalMiss s /\
  0 <= totalBackspace s /\
  (lastTimeMs s = None <-> totalCorrect s = 0).
Proof. apply reachable_scores. Qed.

(** ** hooks/useTrainer.ts: storing settings again *)

Lemma normalize_fixed (d : DigitsSettings) :
  settings_wf d -> normalize d = d.
Proof.
  intros (a & b & c & e & Ha & Hb & Hc & He & Hab & Hb50 & Hce & He50).
  destruct d as [mi ma sg dc fi fa]. cbn in Ha, Hb, Hc, He. subst.
  unfold normalize. cbn [minIntDigits maxIntDigits minFracDigits
                         maxFracDigits enableSign enableDecimal].
  rewrite !clampInt_of_Z by lia.
  rewrite !Z.min_l, !Z.max_l by lia. reflexivity.
Qed.

Lemma change_stores_normalized (s : Trainer) (next : DigitsSettings)
    (w : World) :
  digitsSettings (after (ChangeDigitsSettings next) s w) = normalize next.
Proof. step_cases; fields; reflexivity. Qed.

(** Storing settings is idempotent: handing the same settings over a second
    time, or handing back the settings already stored, leaves the stored
    settings as they are. *)
Theorem storing_settings_again_changes_nothing
    (s : Trainer) (next : DigitsSettings) (w w' : World) :
  let once := after (ChangeDigitsSettings next) s w in
  digitsSettings (after (ChangeDigitsSettings next) once w') =
    digitsSettings once /\
  digitsSettings (after (ChangeDigitsSettings (digitsSettings once)) once w')
    = digitsSettings once /\
  (reachable s ->
   digitsSettings (after (ChangeDigitsSettings (digitsSettings s)) s w) =
     digitsSettings s).
Proof.
  cbv zeta. rewrite !change_stores_normalized.
  split; [reflexivity|]. split.
  - apply normalize_fixed, normalize_wf.
  - intro Hreach. apply normalize_fixed.
    apply (inv_settings s (reachable_invariant s Hreach)).
Qed.

(** ** hooks/useTrainer.ts: more on the ranked view *)

Lemma sum_attempts_nonneg (stats : Obj Stat) :
  Forall (fun entry => stat_ok (snd entry)) stats ->
  0 <= sum_over attempts stats.
Proof.
  unfold sum_over.
  induction 1 as [|[k v] o Hv Ho IH]; cbn [fold_right snd]; [lia|].
  destruct Hv as [_ Hv]. cbn [snd] in Hv. lia.
Qed.

Lemma sum_attempts_zero (stats : Obj Stat) :
  stats_ok stats -> (sum_over attempts stats = 0 <-> stats = []).
Proof.
  intros [Hall _]. split; [|now intros ->].
  destruct Hall as [|[k v] o Hv Ho]; [reflexivity|].
  pose proof (sum_attempts_nonneg o Ho) as Hrest.
  destruct Hv as [_ Hv]. cbn [snd] in Hv.
  unfold sum_over in *. cbn [fold_right snd]. intro E. exfalso. lia.
Qed.

(** The ranked view has as many rows as there are attempted items, up to
    10, and is empty exactly when nothing has been attempted since the last
    reset. *)
Theorem ranked_view_size (s : Trainer) :
  reachable s ->
  List.length (ranked s) = Nat.min 10 (List.length (statsByItem s)) /\
  (ranked s = [] <-> totalAttempts s = 0).
Proof.
  intro Hreach.
  pose proof (inv_stats s (reachable_invariant s Hreach)) as Hok.
  destruct (reachable_sums s Hreach) as [Hsum _].
  assert (List.length (ranked s) = Nat.min 10 (List.length (statsByItem s)))
    as Hlen.
  { unfold ranked, ranked_of. rewrite length_firstn.
    rewrite (Permutation_length (Array_sort_perm rank_compare _)).
    now rewrite length_map. }
  split; [exact Hlen|].
  rewrite <- Hsum, (sum_attempts_zero _ Hok).
  split.
  - intro Hr. rewrite Hr in Hlen. cbn [List.length] in Hlen.
    destruct (statsByItem s); [reflexivity|]. cbn [List.length] in Hlen. lia.
  - intro Hs. unfold ranked. now rewrite Hs.
Qed.

Lemma StronglySorted_app_order {A} (R : A -> A -> Prop) (l1 l2 : list A) :
  StronglySorted R (l1 ++ l2) ->
  forall a b, In a l1 -> In b l2 -> R a b.
Proof.
  induction l1 as [|x l1 IH]; intros Hs a b Ha Hb; [destruct Ha|].
  cbn [app] in Hs. apply StronglySorted_inv in Hs. destruct Hs as [Hs Hx].
  destruct Ha as [<-|Ha].
  - rewrite Forall_forall in Hx. apply Hx. apply in_or_app. now right.
  - now apply IH.
Qed.

(** The ranked view is a top list of the weakest items: every row of it
    ranks before (lower accuracy, or equal accuracy and at least as many
    attempts) every attempted item that is left out of it. *)
Theorem ranked_view_holds_the_weakest
    (s : Trainer) (r x : RankedStat) :
  In r (ranked s) ->
  In x (map rank_entry (statsByItem s)) -> ~ In x (ranked s) ->
  ranks_before r x.
Proof.
  intros Hr Hx Hout.
  set (full := Array_sort rank_compare (map rank_entry (statsByItem s))).
  assert (StronglySorted ranks_before full) as Hs.
  { apply Array_sort_sorted.
    - apply rank_compare_before.
    - apply ranks_before_total.
    - apply ranks_before_trans. }
  assert (In x full) as Hxf
    by (apply (Permutation_in _ (Permutation_sym (Array_sort_perm _ _)) Hx)).
  rewrite <- (firstn_skipn 10 full) in Hs, Hxf.
  apply in_app_or in Hxf. destruct Hxf as [Hxf|Hxf]; [contradiction|].
  exact (StronglySorted_app_order _ _ _ Hs r x Hr Hxf).
Qed.

(** ** hooks/useTrainer.ts: typing a whole target *)

Lemma prefix_app (p rest : string) : String.prefix p (p ++ rest) = true.
Proof.
  induction p as [|ch p IH]; cbn; [apply prefix_empty|].
  destruct (ascii_dec ch ch); [exact IH|congruence].
Qed.

Lemma char_at_app (p rest : string) (ch : ascii) :
  char_at (p ++ String ch rest) (String.length p) = String ch "".
Proof.
  unfold char_at. induction p as [|a p IH]; cbn; [reflexivity|]. exact IH.
Qed.

Lemma append_longer (p rest : string) : rest <> "" -> p <> (p ++ rest)%string.
Proof.
  intros Hne E. apply (f_equal String.length) in E.
  rewrite append_length in E. destruct rest; [congruence|]. cbn in E. lia.
Qed.

Lemma symbol_advance_dispatch (s : Trainer) (e : KeyboardEvent) (w : World) :
  mode s <> digits -> isRunning s = true -> target s <> "" -> printable e ->
  String.prefix (progress s ++ key e) (target s) = true ->
  (progress s ++ key e)%string <> target s ->
  dispatch (KeyDown e) s w =
  (setProgress (const (progress s ++ key e)%string)
     (setTyped (fun prev => prev ++ key e)%string s), w).
Proof.
  intros Hmode Hrun Htgt Hkey Hpre Hcmp.
  accept_key Hrun Htgt Hkey.
  apply String.eqb_neq in Hcmp.
  now rewrite (Mode_eqb_neq _ _ Hmode), Hpre, Hcmp.
Qed.

(** A non-completing match of either kind, as one state change. *)
Lemma match_advances (s : Trainer) (ch : ascii) (rest : string) (w : World) :
  isRunning s = true ->
  target s = (progress s ++ String ch rest)%string -> rest <> "" ->
  exists s1,
    dispatch (KeyDown (mkKeyboardEvent (String ch "") false false false)) s w
      = (s1, w) /\
    progress s1 = (progress s ++ String ch "")%string /\
    target s1 = target s /\ isRunning s1 = true /\ mode s1 = mode s /\
    pool s1 = pool s /\
    totalAttempts s1 = totalAttempts s /\ totalCorrect s1 = totalCorrect s /\
    totalMiss s1 = totalMiss s /\ statsByItem s1 = statsByItem s.
Proof.
  intros Hrun Htgt Hrest.
  set (e := mkKeyboardEvent (String ch "") false false false).
  assert (printable e) as Hkey by (repeat split; reflexivity).
  assert (target s <> "") as Hne.
  { rewrite Htgt. destruct (progress s); discriminate. }
  assert (target s = ((progress s ++ key e) ++ rest)%string) as Hsplit.
  { rewrite Htgt. cbn [key e]. rewrite append_assoc. reflexivity. }
  assert ((progress s ++ key e)%string <> target s) as Hcmp.
  { rewrite Hsplit. now apply append_longer. }
  assert (String.prefix (progress s ++ key e) (target s) = true) as Hpre.
  { rewrite Hsplit. apply prefix_app. }
  assert (key e = char_at (target s) (String.length (progress s))) as Hexp.
  { cbn [key e]. rewrite Htgt. symmetry. apply char_at_app. }
  destruct (Mode_eqb (mode s) digits) eqn:Em.
  - apply Mode_eqb_eq in Em. eexists. split.
    + now apply numeric_advance_step.
    + unfold pool, basePool, enabledMap. fields.
      repeat split; first [reflexivity | assumption].
  - assert (mode s <> digits) as Hmode
      by (intro E; rewrite E in Em; discriminate Em).
    eexists. split.
    + now apply symbol_advance_dispatch.
    + unfold pool, basePool, enabledMap. fields.
      repeat split; first [reflexivity | assumption].
Qed.

Lemma match_completes (s : Trainer) (ch : ascii) (w : World) :
  isRunning s = true ->
  target s = (progress s ++ String ch "")%string ->
  (mode s <> digits -> pool s <> []) ->
  let s' :=
    after (KeyDown (mkKeyboardEvent (String ch "") false false false)) s w in
  totalAttempts s' = totalAttempts s + 1 /\
  totalCorrect s' = totalCorrect s + 1 /\
  totalMiss s' = totalMiss s /\
  progress s' = "" /\ typed s' = "" /\
  attempts (stat_of (target s) (statsByItem s')) =
    attempts (stat_of (target s) (statsByItem s)) + 1 /\
  correct (stat_of (target s) (statsByItem s')) =
    correct (stat_of (target s) (statsByItem s)) + 1.
Proof.
  intros Hrun Htgt Hpool.
  set (e := mkKeyboardEvent (String ch "") false false false).
  assert (printable e) as Hkey by (repeat split; reflexivity).
  assert (target s <> "") as Hne.
  { rewrite Htgt. destruct (progress s); discriminate. }
  assert ((progress s ++ key e)%string = target s) as Hcmp
    by (now rewrite Htgt).
  destruct (Mode_eqb (mode s) digits) eqn:Em.
  - apply Mode_eqb_eq in Em.
    assert (key e = char_at (target s) (String.length (progress s))) as Hexp.
    { cbn [key e]. rewrite Htgt. symmetry. apply char_at_app. }
    rewrite (numeric_completion_step s e w Em Hrun Hne Hkey Hexp Hcmp).
    cbv zeta. unfold bumpStat. fields. rewrite bump_target.
    repeat split; reflexivity.
  - assert (mode s <> digits) as Hmode
      by (intro E; rewrite E in Em; discriminate Em).
    rewrite (symbol_completion_step s e w Hmode Hrun Hne Hkey Hcmp
               (Hpool Hmode)).
    cbv zeta. unfold bumpStat. fields. rewrite bump_target.
    repeat split; reflexivity.
Qed.

Lemma typing_the_rest (rest : string) :
  forall (s : Trainer) (w : World),
    rest <> "" ->
    isRunning s = true ->
    target s = (progress s ++ rest)%string ->
    (mode s <> digits -> pool s <> []) ->
    let s' := fst (run_from (keystrokes (typing rest)) s w) in
    totalAttempts s' = totalAttempts s + 1 /\
    totalCorrect s' = totalCorrect s + 1 /\
    totalMiss s' = totalMiss s /\
    progress s' = "" /\ typed s' = "" /\
    attempts (stat_of (target s) (statsByItem s')) =
      attempts (stat_of (target s) (statsByItem s)) + 1 /\
    correct (stat_of (target s) (statsByItem s')) =
      correct (stat_of (target s) (statsByItem s)) + 1.
Proof.
  induction rest as [|ch rest IH]; intros s w Hne Hrun Htgt Hpool;
    [congruence|].
  cbn [typing list_ascii_of_string map keystrokes run_from]. unfold bind.
  destruct rest as [|ch' rest'].
  - cbn [list_ascii_of_string map run_from]. unfold ret.
    pose proof (match_completes s ch w Hrun Htgt Hpool) as H.
    unfold after in H.
    destruct (dispatch _ s w) as [s1 w1]. exact H.
  - destruct (match_advances s ch (String ch' rest') w Hrun Htgt
                ltac:(discriminate))
      as (s1 & Hd & Hp1 & Ht1 & Hr1 & Hm1 & Hpool1 & Ha1 & Hc1 & Hmi1 & Hs1).
    rewrite Hd.
    assert (target s1 = (progress s1 ++ String ch' rest')%string) as Htgt1.
    { rewrite Ht1, Hp1, Htgt, append_assoc. reflexivity. }
    assert (mode s1 <> digits -> pool s1 <> []) as Hpool'
      by (rewrite Hm1, Hpool1; exact Hpool).
    specialize (IH s1 w ltac:(discriminate) Hr1 Htgt1 Hpool').
    cbv zeta in IH.
    change (map KeyDown
              (map (fun c => mkKeyboardEvent (String c "") false false false)
                   (list_ascii_of_string (String ch' rest'))))
      with (keystrokes (typing (String ch' rest'))).
    rewrite Ht1, Hs1, Ha1, Hc1, Hmi1 in IH. exact IH.
Qed.

(** Typing what is left of the target, character by character with no other
    key in between, completes it: whatever the mode, exactly one attempt and
    one success are counted, in the totals and in the statistic of the
    target, no miss is counted, and both buffers end up empty under a new
    target. *)
Theorem typing_the_target_completes_it
    (s : Trainer) (rest : string) (w : World) :
  reachable s -> isRunning s = true ->
  target s = (progress s ++ rest)%string -> rest <> "" ->
  let s' := fst (run_from (keystrokes (typing rest)) s w) in
  totalAttempts s' = totalAttempts s + 1 /\
  totalCorrect s' = totalCorrect s + 1 /\
  totalMiss s' = totalMiss s /\
  progress s' = "" /\ typed s' = "" /\
  attempts (stat_of (target s) (statsByItem s')) =
    attempts (stat_of (target s) (statsByItem s)) + 1 /\
  correct (stat_of (target s) (statsByItem s')) =
    correct (stat_of (target s) (statsByItem s)) + 1.
Proof.
  intros Hreach Hrun Htgt Hne.
  apply typing_the_rest; try assumption.
  intro Hmode. apply (inv_pool s (reachable_invariant s Hreach) Hmode).
  rewrite Htgt. destruct (progress s); [exact Hne|discriminate].
Qed.

(** ** hooks/useTrainer.ts: when the target changes *)

(** A key event that does not count a success leaves the target and its
    shown-time alone: a miss, a partial match or a Backspace never replaces
    the target. *)
Theorem keys_change_target_only_on_completion
    (s : Trainer) (e : KeyboardEvent) (w : World) :
  let s' := after (KeyDown e) s w in
  totalCorrect s' = totalCorrect s ->
  target s' = target s /\ shownAt s' = shownAt s.
Proof.
  step_cases; fields; intro H; first [ split; reflexivity | exfalso; lia ].
Qed.

(** Storing settings regenerates the target from the normalised settings
    (in whatever mode the trainer is; the mode itself is not changed),
    clears both buffers and keeps the scores; the new target meets the
    settings just stored. *)
Theorem settings_change_regenerates_target
    (s : Trainer) (next : DigitsSettings) (w : World) :
  let s' := after (ChangeDigitsSettings next) s w in
  target s' = fst (generateDigitsTarget (normalize next) w) /\
  literal_meets
    (configured_range (minIntDigits (digitsSettings s'))
                      (maxIntDigits (digitsSettings s')))
    (configured_range (minFracDigits (digitsSettings s'))
                      (maxFracDigits (digitsSettings s')))
    (digitsSettings s') (target s') = true /\
  typed s' = "" /\ progress s' = "" /\ mode s' = mode s /\
  totalAttempts s' = totalAttempts s /\ totalCorrect s' = totalCorrect s /\
  totalMiss s' = totalMiss s /\ totalBackspace s' = totalBackspace s /\
  statsByItem s' = statsByItem s.
Proof.
  pose proof (generated_literal_configured (normalize next) w
                (normalize_wf next)) as Hlit.
  unfold after, dispatch, setDigitsSettingsAndReset, resetQuestion.
  cbn [Mode_eqb nullish o_digitsSettings]. unfold bind, ret.
  destruct (generateDigitsTarget (normalize next) w) as [t w1].
  destruct (nowMs w1) as [now w2]. cbn [fst] in *. fields.
  repeat split; first [reflexivity | exact Hlit].
Qed.

(** ** domain/digits.ts: the digit strings *)

(** [buildDigitsString] returns only digits, max(1, len) of them (so one
    digit even for a length of 0 or below), and the first is not 0 when a
    non-zero first digit is asked for. *)
Theorem buildDigitsString_yields_digits
    (len : Z) (firstNonZero : bool) (w : World) :
  let t := fst (buildDigitsString len firstNonZero w) in
  all_digits t = true /\
  Z.of_nat (String.length t) = Z.max 1 len /\
  (len <= 1 -> String.length t = 1%nat) /\
  (firstNonZero = true -> leading_zero t = false).
Proof.
  destruct (buildDigitsString_spec len firstNonZero w) as (Hd & Hl & _ & Hz).
  cbv zeta in *. split; [exact Hd|]. split; [|split; [|exact Hz]].
  - rewrite Hl. lia.
  - intro H. rewrite Hl. lia.
Qed.

Transparent SINGLE_SYMBOLS COMBOS initEnabledMap Object_fromEntries filter.

(** ** Worked scenarios for the further properties *)

Lemma pickRandom_returns_member_witness :
  In (fst (pickRandom COMBOS (world_of [4503599627370496]))) COMBOS.
Proof.
  destruct (pickRandom_returns_member COMBOS (world_of [4503599627370496]))
    as [HIn _]; [discriminate|exact HIn].
Defined.

Lemma randomInt_between_either_order_witness :
  fst (randomInt 5 5 (world_of [4503599627370496])) = 5.
Proof.
  destruct (randomInt_between_either_order 5 5
              (world_of [4503599627370496])) as (_ & _ & Heq).
  exact (Heq eq_refl).
Defined.


(** A key pressed while paused. *)
Lemma gated_key_events_change_nothing_witness :
  let s := fst (session [ClickPause] (world_of [])) in
  after (press "(") s (world_of []) = s.
Proof.
  intro s.
  apply (gated_key_events_change_nothing s
           (mkKeyboardEvent "(" false false false) (world_of [])).
  left. by_computation.
Defined.

Lemma named_keys_change_nothing_witness :
  let s := fst (session [] (world_of [])) in
  after (press "Enter") s (world_of []) = s.
Proof.
  intro s.
  apply (named_keys_change_nothing s
           (mkKeyboardEvent "Enter" false false false) (world_of []));
    by_computation.
Defined.


(** Numeric mode, target "100", nothing typed yet, key "1". *)
Lemma numeric_match_advances_or_completes_witness :
  let s := fst (session [SelectMode digits] (world_of [])) in
  let s' := after (press "1") s (world_of []) in
  progress s' = "1" /\ typed s' = "1" /\ target s' = target s.
Proof.
  intros s s'.
  destruct (numeric_match_advances_or_completes s
              (mkKeyboardEvent "1" false false false) (world_of []))
    as [Hadv _]; [by_computation ..|].
  destruct Hadv as (Hp & Ht & Htg & _); [by_computation|].
  exact (conj Hp (conj Ht Htg)).
Defined.

(** Single mode with "(" unticked. *)
Lemma target_is_an_enabled_item_witness :
  let s := fst (session [ToggleItem "(" false] (world_of [])) in
  In (target s) (basePool s) /\ enabled_in (enabledMap s) (target s) = true.
Proof.
  intro s.
  destruct (target_is_an_enabled_item s) as [_ H].
  - apply session_reachable. by_computation.
  - by_computation.
  - apply H. by_computation.
Defined.

Lemma numeric_target_meets_stored_settings_witness :
  let s := fst (session [SelectMode digits] (world_of [])) in
  target s <> "".
Proof.
  intro s.
  destruct (numeric_target_meets_stored_settings s) as [_ Hne].
  - apply session_reachable. by_computation.
  - by_computation.
  - exact Hne.
Defined.

Lemma statistics_add_up_to_totals_witness :
  let s := fst (session eleven_misses eleven_draws) in
  sum_over attempts (statsByItem s) = totalAttempts s.
Proof.
  intro s.
  destruct (statistics_add_up_to_totals s) as (Ha & _).
  - apply session_reachable. by_computation.
  - exact Ha.
Defined.

Lemma mode_change_keeps_scores_witness :
  let s := fst (session [press "x"] (world_of [])) in
  let s' := after (SelectMode digits) s (world_of []) in
  target s' = fst (generateDigitsTarget (digitsSettings s) (world_of [])) /\
  totalMiss s' = totalMiss s.
Proof.
  intros s s'.
  destruct (mode_change_keeps_scores s digits (world_of []))
    as (_ & _ & _ & _ & _ & Hm & _ & _ & _ & _ & _ & _ & _ & Ht & _).
  split; [exact (Ht eq_refl)|exact Hm].
Defined.

Lemma disable_all_then_enable_all_restores_pool_witness :
  let s := fst (session [ToggleItem "(" false] (world_of [])) in
  let off := after ClickDisableAll s (world_of []) in
  pool off = [] /\ pool (after ClickEnableAll off (world_of [])) = basePool s.
Proof.
  intros s off.
  destruct (disable_all_then_enable_all_restores_pool s (world_of [])
              (world_of [])) as (Hoff & _ & Hon & _).
  - by_computation.
  - split; [exact Hoff|exact Hon].
Defined.

(** Unticking "(" in single mode: ")" stays in the pool. *)
Lemma toggling_an_item_changes_only_it_witness :
  let s := fst (session [] (world_of [])) in
  In ")" (pool (after (ToggleItem "(" false) s (world_of []))).
Proof.
  intro s.
  destruct (toggling_an_item_changes_only_it s "(" false (world_of []))
    as [Hpool _].
  - by_computation.
  - apply (Hpool ")"). split.
    + vm_compute. right. left. reflexivity.
    + by_computation.
Defined.

(** Numeric mode, target "100": "1", then Backspace. *)
Lemma backspace_undoes_a_matched_digit_witness :
  let s := fst (session [SelectMode digits] (world_of [])) in
  let s' := after (press "Backspace") (after (press "1") s (world_of []))
                  (world_of []) in
  progress s' = progress s /\ typed s' = typed s /\
  totalBackspace s' = totalBackspace s + 1.
Proof.
  intros s s'.
  destruct (backspace_undoes_a_matched_digit s
              (mkKeyboardEvent "1" false false false)
              (mkKeyboardEvent "Backspace" false false false)
              (world_of []) (world_of []))
    as (Hp & Ht & _ & Hb & _).
  - apply session_reachable. by_computation.
  - by_computation.
  - by_computation.
  - by_computation.
  - by_computation.
  - by_computation.
  - by_computation.
  - by_computation.
  - by_computation.
  - by_computation.
  - by_computation.
  - exact (conj Hp (conj Ht Hb)).
Defined.

(** Combo mode, target "=>", after "x" and "=": typed is "x=", progress
    "=". *)
Lemma typed_buffer_ends_with_progress_witness :
  let s := fst (session [SelectMode combo; press "x"; press "="]
                        (world_of [])) in
  exists before, typed s = (before ++ progress s)%string.
Proof.
  intro s.
  destruct (typed_buffer_ends_with_progress s) as (before & H & _).
  - apply session_reachable. by_computation.
  - now exists before.
Defined.

Lemma last_time_recorded_iff_some_correct_witness :
  let s := fst (session [press "("] (world_of [])) in
  lastTimeMs s = None <-> totalCorrect s = 0.
Proof.
  intro s.
  destruct (last_time_recorded_iff_some_correct s) as (_ & _ & _ & _ & H).
  - apply session_reachable. by_computation.
  - exact H.
Defined.

Lemma storing_settings_again_changes_nothing_witness :
  let s := fst (session [SelectMode digits] (world_of [])) in
  digitsSettings (after (ChangeDigitsSettings (digitsSettings s)) s
                        (world_of [])) = digitsSettings s.
Proof.
  intro s.
  destruct (storing_settings_again_changes_nothing s (digitsSettings s)
              (world_of []) (world_of [])) as (_ & _ & H).
  apply H. apply session_reachable. by_computation.
Defined.

(** Eleven attempted items: ten rows. *)
Lemma ranked_view_size_witness :
  let s := fst (session eleven_misses eleven_draws) in
  List.length (ranked s) = Nat.min 10 (List.length (statsByItem s)).
Proof.
  intro s.
  destruct (ranked_view_size s) as [Hlen _].
  - apply session_reachable. by_computation.
  - exact Hlen.
Defined.

(** Eleven attempted items: the row of "(" ranks before ":", which is left
    out. *)
Lemma ranked_view_holds_the_weakest_witness :
  let s := fst (session eleven_misses eleven_draws) in
  ranks_before (rank_entry ("(", mkStat 1 0 0))
               (rank_entry (":", mkStat 1 0 0)).
Proof.
  intro s.
  apply (ranked_view_holds_the_weakest s).
  - vm_compute. left. reflexivity.
  - vm_compute. do 10 right. left. reflexivity.
  - vm_compute. intro H.
    repeat (destruct H as [H|H]; [discriminate H|]). exact H.
Defined.

(** Combo mode, target "=>", typed in full. *)
Lemma typing_the_target_completes_it_witness :
  let s := fst (session [SelectMode combo] (world_of [])) in
  let s' := fst (run_from (keystrokes (typing "=>")) s (world_of [])) in
  totalCorrect s' = totalCorrect s + 1 /\ totalMiss s' = totalMiss s /\
  progress s' = "" /\ typed s' = "".
Proof.
  intros s s'.
  destruct (typing_the_target_completes_it s "=>" (world_of []))
    as (_ & Hc & Hm & Hp & Ht & _).
  - apply session_reachable. by_computation.
  - by_computation.
  - by_computation.
  - discriminate.
  - exact (conj Hc (conj Hm (conj Hp Ht))).
Defined.

(** A miss keeps the target. *)
Lemma keys_change_target_only_on_completion_witness :
  let s := fst (session [] (world_of [])) in
  target (after (press "x") s (world_of [])) = target s.
Proof.
  intro s.
  destruct (keys_change_target_only_on_completion s
              (mkKeyboardEvent "x" false false false) (world_of []))
    as [Ht _]; [by_computation|exact Ht].
Defined.

(** A length of 0 still gives one digit. *)
Lemma buildDigitsString_yields_digits_witness :
  String.length (fst (buildDigitsString 0 true (world_of []))) = 1%nat.
Proof.
  destruct (buildDigitsString_yields_digits 0 true (world_of []))
    as (_ & _ & Hone & _).
  apply Hone. lia.
Defined.

(** Default settings 3..7 and 1..4: a minimum of 9 is lowered to 7, a
    maximum of 2 raised to 3. *)
Lemma form_edits_adjust_the_pair_witness :
  let cur := mkDigitsSettings (of_Z 3) (of_Z 7) false false (of_Z 1)
                              (of_Z 4) in
  normalize (onChange_minIntDigits cur (of_Z 9)) =
    mkDigitsSettings (of_Z 7) (of_Z 7) false false (of_Z 1) (of_Z 4) /\
  normalize (onChange_maxIntDigits cur (of_Z 2)) =
    mkDigitsSettings (of_Z 3) (of_Z 3) false false (of_Z 1) (of_Z 4).
Proof.
  intro cur. split.
  - destruct (form_edits_adjust_the_pair 3 7 1 4 false false (of_Z 9))
      as (Hmin & _); [lia ..|exact Hmin].
  - destruct (form_edits_adjust_the_pair 3 7 1 4 false false (of_Z 2))
      as (_ & Hmax & _); [lia ..|exact Hmax].
Defined.
